(** * SMA Solar Webconnect sensor platform: model and properties

    A shallow embedding of [homeassistant/components/sensor/sma.py]:
    the configuration check [_check_sensor_schema], the schema of a
    custom sensor [CUSTOM_SCHEMA], the platform setup
    [async_setup_platform] (sensor-definition table, sensor entities,
    pruning, group and URL of the session), the periodic handler
    [async_sma] with its backoff counter, and the entity method
    [SMAsensor.async_update_values].

    Numbers are Python ints, modelled by [Z]: the raw readings of the
    device and the built-in factors are ints, and [//] on ints is floor
    division, which is [Z.div].  A custom factor, which the schema
    coerces to float, is taken at the integer it denotes; float
    rounding and the float rendering of [str] are outside this model. *)

From Stdlib Require Import ZArith List String Ascii Bool Lia.
From Stdlib Require Import DecimalString DecimalZ.
Import ListNotations.

Local Open Scope string_scope.
Local Open Scope Z_scope.

(** ** Python values used by the module *)

(** Exceptions that the modelled code can raise. *)
Inductive exn : Type :=
| KeyError (key : string)
| ZeroDivisionError
| Invalid (msg : string).

(** A computation that returns a value or raises. *)
Inductive result (A : Type) : Type :=
| Return (a : A)
| Raise (e : exn).

Arguments Return {A} a.
Arguments Raise {A} e.

Definition bind {A B : Type} (m : result A) (f : A -> result B) : result B :=
  match m with
  | Return a => f a
  | Raise e => Raise e
  end.

Notation "'do' x <- m ; k" := (bind m (fun x => k))
  (at level 10, x pattern, m at level 100, k at level 200).

(** [x in xs] on a Python list of strings. *)
Fixpoint py_in (x : string) (xs : list string) : bool :=
  match xs with
  | [] => false
  | y :: ys => if String.eqb x y then true else py_in x ys
  end.

(** [str(n)] for an int. *)
Definition str_int (n : Z) : string := NilEmpty.string_of_int (Z.to_int n).

(** ['{} {}'.format(a, b)] with [a] an int and [b] a string. *)
Definition format2 (a : Z) (b : string) : string := str_int a ++ " " ++ b.

(** ['{} does not exist'.format(s)] and ['{} does not exist [{}]'.format(a, s)]. *)
Definition msg_sensor (s : string) : string := s ++ " does not exist".
Definition msg_attr (a s : string) : string := a ++ " does not exist [" ++ s ++ "]".

(** [a // b] on ints. *)
Definition floordiv (a b : Z) : result Z :=
  if b =? 0 then Raise ZeroDivisionError else Return (a / b).

(** ** Dictionaries

    A Python dict keeps its keys unique and in insertion order; it is
    modelled by an association list that the operations below keep free
    of duplicate keys. *)

Definition dict (V : Type) : Type := list (string * V).

Section Dict.
Context {V : Type}.

(** [d.get(k)]; [d[k]] is [getitem]. *)
Fixpoint dict_get (k : string) (d : dict V) : option V :=
  match d with
  | [] => None
  | (k', v) :: rest => if String.eqb k k' then Some v else dict_get k rest
  end.

Definition getitem (d : dict V) (k : string) : result V :=
  match dict_get k d with
  | Some v => Return v
  | None => Raise (KeyError k)
  end.

(** [k in d]. *)
Definition dict_mem (k : string) (d : dict V) : bool :=
  match dict_get k d with Some _ => true | None => false end.

(** [d[k] = v]: overwrite in place, or append a new key. *)
Fixpoint dict_set (k : string) (v : V) (d : dict V) : dict V :=
  match d with
  | [] => [(k, v)]
  | (k', v') :: rest =>
      if String.eqb k k' then (k', v) :: rest else (k', v') :: dict_set k v rest
  end.

(** [list(d.keys())]. *)
Definition dict_keys (d : dict V) : list string := map fst d.

(** One pass of a loop that stores the pair [kv] in [d]. *)
Definition set_item (d : dict V) (kv : string * V) : dict V :=
  dict_set (fst kv) (snd kv) d.

(** [dict(pairs)], and a dict comprehension over [pairs]. *)
Definition dict_of (pairs : list (string * V)) : dict V :=
  fold_left set_item pairs [].

(** [{k: v for k, v in d.items() if p(k)}]. *)
Definition dict_filter (p : string -> bool) (d : dict V) : dict V :=
  filter (fun kv => p (fst kv)) d.
End Dict.


(** ** Configuration and its validation *)

Definition SENSOR_OPTIONS : list string :=
  ["current_consumption"; "current_power"; "total_consumption"; "total_yield"].

(** A validated entry of [config[CONF_CUSTOM]]: the dict with the keys
    [CONF_KEY], [CONF_UNIT] and [CONF_FACTOR]. *)
Record custom_prop : Type := {
  prop_key : string;
  prop_unit : string;
  prop_factor : Z
}.

(** The part of the platform configuration that the sensor logic reads:
    [conf[CONF_SENSORS]] maps a sensor name to its attribute names,
    [conf[CONF_CUSTOM]] a custom sensor name to its definition.  Host,
    password, group, SSL flag and scan interval only parametrise the
    session and the timer. *)
Record config : Type := {
  conf_sensors : dict (list string);
  conf_custom : dict custom_prop
}.

(** The inner loop of [_check_sensor_schema]. *)
Fixpoint check_attrs (valid : list string) (sensor : string) (attrs : list string)
  : result unit :=
  match attrs with
  | [] => Return tt
  | attr :: rest =>
      if py_in attr valid then check_attrs valid sensor rest
      else Raise (Invalid (msg_attr attr sensor))
  end.

(** The outer loop of [_check_sensor_schema]. *)
Fixpoint check_sensors (valid : list string) (items : list (string * list string))
  : result unit :=
  match items with
  | [] => Return tt
  | (sensor, attrs) :: rest =>
      if negb (py_in sensor valid) then Raise (Invalid (msg_sensor sensor))
      else do _ <- check_attrs valid sensor attrs; check_sensors valid rest
  end.

Definition _check_sensor_schema (conf : config) : result config :=
  let valid := (dict_keys (conf_custom conf) ++ SENSOR_OPTIONS)%list in
  do _ <- check_sensors valid (conf_sensors conf);
  Return conf.

(** An entry of the [custom] mapping as the YAML gives it: each of the
    three known keys present or not, and the names of any other keys. *)
Record raw_custom : Type := {
  raw_key : option string;
  raw_unit : option string;
  raw_factor : option Z;
  raw_extra : list string
}.

(** [CUSTOM_SCHEMA]: [key] is required and passes [vol.Length(min=13,
    max=13)], [unit] is required, [factor] is optional with default 1,
    and a dict schema allows no other key. *)
Definition CUSTOM_SCHEMA (raw : raw_custom) : result custom_prop :=
  match raw_extra raw with
  | _ :: _ => Raise (Invalid "extra keys not allowed")
  | [] =>
      match raw_key raw with
      | None => Raise (Invalid "required key not provided")
      | Some k =>
          if (String.length k <? 13)%nat
          then Raise (Invalid "length of value must be at least 13")
          else if (13 <? String.length k)%nat
          then Raise (Invalid "length of value must be at most 13")
          else
            match raw_unit raw with
            | None => Raise (Invalid "required key not provided")
            | Some u =>
                Return {| prop_key := k;
                          prop_unit := u;
                          prop_factor := match raw_factor raw with
                                         | Some f => f
                                         | None => 1
                                         end |}
            end
      end
  end.

(** The configuration before validation. *)
Record raw_config : Type := {
  raw_sensors : dict (list string);
  raw_customs : dict raw_custom
}.

(** [vol.Schema({cv.slug: CUSTOM_SCHEMA})] on the custom mapping. *)
Fixpoint validate_customs (items : list (string * raw_custom))
  : result (dict custom_prop) :=
  match items with
  | [] => Return []
  | (name, raw) :: rest =>
      do prop <- CUSTOM_SCHEMA raw;
      do rest' <- validate_customs rest;
      Return ((name, prop) :: rest')
  end.

(** [PLATFORM_SCHEMA]: the field schemas, then [_check_sensor_schema]. *)
Definition PLATFORM_SCHEMA (raw : raw_config) : result config :=
  do custom <- validate_customs (raw_customs raw);
  _check_sensor_schema {| conf_sensors := raw_sensors raw; conf_custom := custom |}.

(** ** The sensor entity *)

(** A value of [sensor_defs]: the tuple (key, unit, factor). *)
Definition sensor_def : Type := (string * string * Z)%type.

Record SMAsensor : Type := {
  _name : string;
  _key : string;
  _unit_of_measurement : string;
  _state : option Z;
  _sensor_defs : dict sensor_def;
  _attr : dict string
}.

Definition set_attr (self : SMAsensor) (attr : dict string) : SMAsensor :=
  {| _name := _name self; _key := _key self;
     _unit_of_measurement := _unit_of_measurement self;
     _state := _state self; _sensor_defs := _sensor_defs self; _attr := attr |}.

Definition set_state (self : SMAsensor) (state : option Z) : SMAsensor :=
  {| _name := _name self; _key := _key self;
     _unit_of_measurement := _unit_of_measurement self;
     _state := state; _sensor_defs := _sensor_defs self; _attr := _attr self |}.

(** [SMAsensor.__init__]. *)
Definition SMAsensor_init (sensor_name : string) (attr : list string)
  (sensor_defs : dict sensor_def) : result SMAsensor :=
  do (key, unit, _) <- getitem sensor_defs sensor_name;
  Return {| _name := sensor_name; _key := key; _unit_of_measurement := unit;
            _state := None; _sensor_defs := sensor_defs;
            _attr := dict_of (map (fun att => (att, "")) attr) |}.

(** [new_state != self._state], where [self._state] may be [None]. *)
Definition state_ne (new_state : Z) (state : option Z) : bool :=
  match state with
  | Some old => negb (new_state =? old)
  | None => true
  end.

(** The loop of [async_update_values] over [self._attr.items()].  Every
    key of the dict is visited once and its entry rewritten in place, so
    the loop is a pass over the items; it returns the items, the
    [update] flag, and the exception that stopped it, if any (the items
    before that point stay rewritten). *)
Fixpoint update_attrs (key_values : dict Z) (sensor_defs : dict sensor_def)
  (items : dict string) (update : bool) : dict string * bool * option exn :=
  match items with
  | [] => ([], update, None)
  | (key, val) :: rest =>
      match dict_get key key_values with
      | None => (items, update, Some (KeyError key))
      | Some v =>
          match dict_get key sensor_defs with
          | None => (items, update, Some (KeyError key))
          | Some (_, unit, _) =>
              let newval := format2 v unit in
              let changed := negb (String.eqb val newval) in
              let '(rest', update', e) :=
                update_attrs key_values sensor_defs rest
                             (if changed then true else update) in
              ((key, if changed then newval else val) :: rest', update', e)
          end
      end
  end.

(** [SMAsensor.async_update_values]: the sensor after the call, and
    either whether a state-update task was returned ([true]) or [None]
    was ([false]), or the exception raised. *)
Definition async_update_values (self : SMAsensor) (key_values : dict Z)
  : SMAsensor * result bool :=
  let '(attr, update, e) :=
    update_attrs key_values (_sensor_defs self) (_attr self) false in
  let self := set_attr self attr in
  match e with
  | Some e => (self, Raise e)
  | None =>
      match dict_get (_name self) key_values with
      | None => (self, Raise (KeyError (_name self)))
      | Some new_state =>
          if state_ne new_state (_state self)
          then (set_state self (Some new_state), Return true)
          else (self, Return update)
      end
  end.

(** The display string of attribute [key] under the mapping
    [key_values]: what the loop of [async_update_values] computes as
    [newval], when both lookups succeed. *)
Definition attr_string (key_values : dict Z) (sensor_defs : dict sensor_def)
  (key : string) : option string :=
  match dict_get key key_values, dict_get key sensor_defs with
  | Some v, Some (_, unit, _) => Some (format2 v unit)
  | _, _ => None
  end.

(** A sensor shows [key_values]: its state is the value of its name and
    every attribute holds the display string of its key. *)
Definition shows (key_values : dict Z) (self : SMAsensor) : Prop :=
  (exists v, dict_get (_name self) key_values = Some v /\ _state self = Some v) /\
  Forall (fun item => attr_string key_values (_sensor_defs self) (fst item)
                      = Some (snd item)) (_attr self).

(** ** Platform setup *)

(** The four key constants that the code takes from the [pysma]
    library; their values are the library's and are left open. *)
Record pysma_module : Type := {
  KEY_CURRENT_CONSUMPTION_W : string;
  KEY_CURRENT_POWER_W : string;
  KEY_TOTAL_CONSUMPTION_KWH : string;
  KEY_TOTAL_YIELD_KWH : string
}.

(** Sensor_defs from the library. *)
Definition builtin_defs (pysma : pysma_module) : dict sensor_def :=
  dict_of (combine SENSOR_OPTIONS
             [(KEY_CURRENT_CONSUMPTION_W pysma, "W", 1);
              (KEY_CURRENT_POWER_W pysma, "W", 1);
              (KEY_TOTAL_CONSUMPTION_KWH pysma, "kWh", 1000);
              (KEY_TOTAL_YIELD_KWH pysma, "kWh", 1000)]).

(** [(prop['key'], prop['unit'], prop['factor'])]. *)
Definition custom_def (prop : custom_prop) : sensor_def :=
  (prop_key prop, prop_unit prop, prop_factor prop).

(** Sensor_defs from the custom config: one pass of the loop, on the
    table and the names for which the warning was logged. *)
Definition add_custom (acc : dict sensor_def * list string)
  (item : string * custom_prop) : dict sensor_def * list string :=
  let '(sensor_defs, warned) := acc in
  let '(name, prop) := item in
  (dict_set name (custom_def prop) sensor_defs,
   if dict_mem name sensor_defs then (warned ++ [name])%list else warned).

(** Prepare all HASS sensor entities. *)
Fixpoint make_entities (sensor_defs : dict sensor_def)
  (items : list (string * list string))
  (hass_sensors : list SMAsensor) (used_sensors : list string)
  : result (list SMAsensor * list string) :=
  match items with
  | [] => Return (hass_sensors, used_sensors)
  | (name, attr) :: rest =>
      do sensor <- SMAsensor_init name attr sensor_defs;
      make_entities sensor_defs rest
                    (hass_sensors ++ [sensor])%list
                    (used_sensors ++ [name] ++ attr)%list
  end.

(** [[sensor_defs[name][0] for name in names_to_query]]. *)
Fixpoint query_keys (sensor_defs : dict sensor_def) (names : list string)
  : result (list string) :=
  match names with
  | [] => Return []
  | name :: rest =>
      do (key, _, _) <- getitem sensor_defs name;
      do keys <- query_keys sensor_defs rest;
      Return (key :: keys)
  end.

(** What [async_setup_platform] leaves behind: the variables that the
    handler [async_sma] closes over, and the log of warnings. *)
Record platform : Type := {
  sensor_defs : dict sensor_def;
  hass_sensors : list SMAsensor;
  names_to_query : list string;
  keys_to_query : list string;
  backoff : Z;
  warnings : list string
}.

Definition async_setup_platform (pysma : pysma_module) (config : config)
  : result platform :=
  let '(all_defs, warned) :=
    fold_left add_custom (conf_custom config) (builtin_defs pysma, []) in
  do (sensors, used_sensors) <- make_entities all_defs (conf_sensors config) [] [];
  let pruned := dict_filter (fun name => py_in name used_sensors) all_defs in
  let names := dict_keys pruned in
  do keys <- query_keys pruned names;
  Return {| sensor_defs := pruned; hass_sensors := sensors;
            names_to_query := names; keys_to_query := keys;
            backoff := 0; warnings := warned |}.

(** Loading the platform: the schema runs before the setup. *)
Definition load_platform (pysma : pysma_module) (raw : raw_config)
  : result platform :=
  do config <- PLATFORM_SCHEMA raw;
  async_setup_platform pysma config.

(** ** The periodic handler *)

(** What one run of [async_sma] shows from outside: whether [sma.read]
    was awaited, the sensors whose state update was awaited, and the
    exception that left the handler, if any. *)
Record observation : Type := {
  polled : bool;
  notified : list string;
  raised : option exn
}.

Definition set_backoff (p : platform) (b : Z) : platform :=
  {| sensor_defs := sensor_defs p; hass_sensors := hass_sensors p;
     names_to_query := names_to_query p; keys_to_query := keys_to_query p;
     backoff := b; warnings := warnings p |}.

Definition set_sensors (p : platform) (sensors : list SMAsensor) : platform :=
  {| sensor_defs := sensor_defs p; hass_sensors := sensors;
     names_to_query := names_to_query p; keys_to_query := keys_to_query p;
     backoff := backoff p; warnings := warnings p |}.

(** [[0 if val is None else val for val in values]]. *)
Definition zero_if_none (values : list (option Z)) : list Z :=
  map (fun val => match val with None => 0 | Some v => v end) values.

(** [{key: val // sensor_defs[key][2] for key, val in res.items()}]; the
    keys come from a dict, so the comprehension keeps every item. *)
Fixpoint divide_all (sensor_defs : dict sensor_def) (items : dict Z)
  : result (dict Z) :=
  match items with
  | [] => Return []
  | (key, val) :: rest =>
      do (_, _, factor) <- getitem sensor_defs key;
      do q <- floordiv val factor;
      do rest' <- divide_all sensor_defs rest;
      Return ((key, q) :: rest')
  end.

(** The mapping [res] that a run of the handler passes to the sensors,
    from the list that [sma.read] returned. *)
Definition effective_values (p : platform) (values : list (option Z))
  : result (dict Z) :=
  let values := zero_if_none values in
  let res := dict_of (combine (names_to_query p) values) in
  divide_all (sensor_defs p) res.

(** The loop over [hass_sensors]: the sensors after it, and the names of
    those that returned a task, or the exception. *)
Fixpoint update_sensors (res : dict Z) (sensors : list SMAsensor)
  (tasks : list string) : list SMAsensor * result (list string) :=
  match sensors with
  | [] => ([], Return tasks)
  | sensor :: rest =>
      let '(sensor', task) := async_update_values sensor res in
      match task with
      | Raise e => (sensor' :: rest, Raise e)
      | Return task =>
          let '(rest', r) :=
            update_sensors res rest
                           (if task then (tasks ++ [_name sensor])%list else tasks) in
          (sensor' :: rest', r)
      end
  end.

(** One run of [async_sma].  [reply] is what [sma.read(keys_to_query)]
    returns if this run awaits it: [None], or a list of values, each an
    int or [None]. *)
Definition async_sma (p : platform) (reply : option (list (option Z)))
  : platform * observation :=
  if 1 <? backoff p then
    (set_backoff p (backoff p - 1),
     {| polled := false; notified := []; raised := None |})
  else
    match reply with
    | None =>
        (set_backoff p 3, {| polled := true; notified := []; raised := None |})
    | Some values =>
        match effective_values p values with
        | Raise e => (p, {| polled := true; notified := []; raised := Some e |})
        | Return res =>
            let '(sensors, r) := update_sensors res (hass_sensors p) [] in
            (set_sensors p sensors,
             match r with
             | Return tasks => {| polled := true; notified := tasks; raised := None |}
             | Raise e => {| polled := true; notified := []; raised := Some e |}
             end)
        end
    end.

(** Successive runs of the handler, one per timer tick. *)
Fixpoint run (p : platform) (replies : list (option (list (option Z))))
  : platform * list observation :=
  match replies with
  | [] => (p, [])
  | reply :: rest =>
      let '(p', o) := async_sma p reply in
      let '(p'', os) := run p' rest in
      (p'', o :: os)
  end.

(** A sensor refers to the name [k] when [k] is its own name or one of
    its attributes. *)
Definition refers_to (k : string) (self : SMAsensor) : Prop :=
  _name self = k \/ In k (dict_keys (_attr self)).

(** A platform as the setup leaves it for a validated configuration and
    as the handler keeps it: the names queried are the distinct keys of
    the table, one device key is queried per name, and every sensor
    refers, by its name and by its attributes, to names that are
    queried and that its own copy of the table defines. *)
Definition well_formed (p : platform) : Prop :=
  names_to_query p = dict_keys (sensor_defs p) /\
  NoDup (names_to_query p) /\
  List.length (keys_to_query p) = List.length (names_to_query p) /\
  Forall (fun sensor =>
            In (_name sensor) (names_to_query p) /\
            forall key, In key (dict_keys (_attr sensor)) ->
                        In key (names_to_query p) /\
                        In key (dict_keys (_sensor_defs sensor)))
         (hass_sensors p).

(** ** Sample inputs

    A library instance with four distinct keys of the expected length,
    and a configuration with two built-in sensors, one of which lists
    the other as an attribute. *)
Definition sample_pysma : pysma_module :=
  {| KEY_CURRENT_CONSUMPTION_W := "6100_00543100";
     KEY_CURRENT_POWER_W := "6100_40263F00";
     KEY_TOTAL_CONSUMPTION_KWH := "6400_00543A00";
     KEY_TOTAL_YIELD_KWH := "6400_00260100" |}.

Definition sample_config : config :=
  {| conf_sensors := [("total_yield", ["current_power"]); ("current_power", [])];
     conf_custom := [] |}.

(** The platform that the setup builds for the sample configuration. *)
Definition sample_platform : platform :=
  {| sensor_defs := [("current_power", ("6100_40263F00", "W", 1));
                     ("total_yield", ("6400_00260100", "kWh", 1000))];
     hass_sensors :=
       [{| _name := "total_yield"; _key := "6400_00260100";
           _unit_of_measurement := "kWh"; _state := None;
           _sensor_defs := builtin_defs sample_pysma;
           _attr := [("current_power", "")] |};
        {| _name := "current_power"; _key := "6100_40263F00";
           _unit_of_measurement := "W"; _state := None;
           _sensor_defs := builtin_defs sample_pysma;
           _attr := [] |}];
     names_to_query := ["current_power"; "total_yield"];
     keys_to_query := ["6100_40263F00"; "6400_00260100"];
     backoff := 0;
     warnings := [] |}.

Definition sample_values : dict Z := [("current_power", 5); ("total_yield", 123)].

Definition sample_sensor : SMAsensor :=
  {| _name := "total_yield"; _key := "6400_00260100";
     _unit_of_measurement := "kWh"; _state := None;
     _sensor_defs := builtin_defs sample_pysma;
     _attr := [("current_power", "")] |}.

(** The names that a configuration refers to: every sensor name, and
    every attribute name listed under a sensor. *)
Definition configured_names (sensors : dict (list string)) : list string :=
  flat_map (fun item => fst item :: snd item) sensors.

(** A name resolves when it is a built-in metric name or the name of a
    declared custom sensor. *)
Definition resolves (customs : list string) (name : string) : Prop :=
  In name SENSOR_OPTIONS \/ In name customs.

(** ** The session parameters *)

Definition GROUP_INSTALLER : string := "installer".
Definition GROUP_USER : string := "user".
Definition GROUPS : list string := [GROUP_USER; GROUP_INSTALLER].

(** The two group constants that the code takes from the [pysma]
    library; their values are the library's and are left open. *)
Record pysma_groups : Type := {
  pysma_GROUP_INSTALLER : string;
  pysma_GROUP_USER : string
}.

(** [vol.Optional(CONF_GROUP, default=GROUPS[0]): vol.In(GROUPS)] on
    the group of the raw configuration, present or not. *)
Definition validate_group (raw : option string) : result string :=
  let group := match raw with Some g => g | None => hd "" GROUPS end in
  if py_in group GROUPS then Return group
  else Raise (Invalid "value is not allowed").

(** [{GROUP_INSTALLER: pysma.GROUP_INSTALLER,
      GROUP_USER: pysma.GROUP_USER}[config[CONF_GROUP]]]. *)
Definition select_group (lib : pysma_groups) (group : string) : result string :=
  getitem (dict_of [(GROUP_INSTALLER, pysma_GROUP_INSTALLER lib);
                    (GROUP_USER, pysma_GROUP_USER lib)]) group.

(** ["http{}://{}".format("s" if config[CONF_SSL] else "", config[CONF_HOST])]. *)
Definition session_url (ssl : bool) (host : string) : string :=
  "http" ++ (if ssl then "s" else "") ++ "://" ++ host.

(** ** Comparing sensors *)



(** * Properties *)

(** ** Lists and dictionaries *)

Lemma py_in_In (x : string) (xs : list string) : py_in x xs = true <-> In x xs.
Proof.
  induction xs as [|y ys IH]; simpl.
  - split; [discriminate | tauto].
  - destruct (String.eqb_spec x y) as [->|Hne].
    + tauto.
    + rewrite IH. split; [tauto | intros [Heq|H]; [congruence | exact H]].
Qed.

Lemma py_in_false (x : string) (xs : list string) : py_in x xs = false <-> ~ In x xs.
Proof.
  rewrite <- py_in_In. destruct (py_in x xs); split; congruence.
Qed.

Section DictFacts.
Context {V : Type}.
Implicit Types (d : dict V) (k : string) (v : V).

Lemma dict_get_In k v d : dict_get k d = Some v -> In (k, v) d.
Proof.
  induction d as [|[k' v'] d IH]; simpl; [discriminate|].
  destruct (String.eqb_spec k k') as [->|_].
  - intros [= ->]. now left.
  - intros H. right. now apply IH.
Qed.

Lemma dict_get_keys k d : dict_get k d <> None <-> In k (dict_keys d).
Proof.
  induction d as [|[k' v'] d IH]; simpl.
  - tauto.
  - destruct (String.eqb_spec k k') as [->|Hne].
    + split; [now left | discriminate].
    + rewrite IH. split; [tauto | intros [Heq|H]; [congruence | exact H]].
Qed.

Lemma dict_get_some_keys k v d : dict_get k d = Some v -> In k (dict_keys d).
Proof. intros H. apply dict_get_keys. congruence. Qed.

Lemma dict_keys_get k d : In k (dict_keys d) -> exists v, dict_get k d = Some v.
Proof.
  intros H. apply dict_get_keys in H.
  destruct (dict_get k d) as [v|]; [now exists v | congruence].
Qed.

Lemma dict_mem_keys k d : dict_mem k d = true <-> In k (dict_keys d).
Proof.
  unfold dict_mem. rewrite <- dict_get_keys.
  destruct (dict_get k d); split; congruence.
Qed.

Lemma dict_get_set_eq k v d : dict_get k (dict_set k v d) = Some v.
Proof.
  induction d as [|[k' v'] d IH]; simpl.
  - now rewrite String.eqb_refl.
  - destruct (String.eqb_spec k k') as [->|Hne]; simpl.
    + now rewrite String.eqb_refl.
    + apply String.eqb_neq in Hne. now rewrite Hne.
Qed.

Lemma dict_get_set_neq k k' v d :
  k' <> k -> dict_get k' (dict_set k v d) = dict_get k' d.
Proof.
  intros Hne. induction d as [|[k0 v0] d IH]; simpl.
  - apply String.eqb_neq in Hne. now rewrite Hne.
  - destruct (String.eqb_spec k k0) as [->|Hk]; simpl.
    + apply String.eqb_neq in Hne. now rewrite Hne.
    + now rewrite IH.
Qed.

Lemma dict_keys_set k k' v d :
  In k' (dict_keys (dict_set k v d)) <-> k' = k \/ In k' (dict_keys d).
Proof.
  rewrite <- !dict_get_keys.
  destruct (string_dec k' k) as [->|Hne].
  - rewrite dict_get_set_eq. split; [now left | discriminate].
  - rewrite dict_get_set_neq by exact Hne. tauto.
Qed.

Lemma dict_set_NoDup k v d : NoDup (dict_keys d) -> NoDup (dict_keys (dict_set k v d)).
Proof.
  induction d as [|[k0 v0] d IH]; simpl; intros Hnd.
  - constructor; [tauto | constructor].
  - destruct (String.eqb_spec k k0) as [->|Hk]; simpl; [exact Hnd|].
    inversion Hnd as [|? ? Hnotin Hnd']; subst.
    constructor; [|now apply IH].
    intros Hin. apply (dict_keys_set k k0 v d) in Hin.
    destruct Hin as [Heq|Hin]; [congruence | contradiction].
Qed.

Lemma fold_set_keys (l : list (string * V)) d k :
  In k (dict_keys (fold_left set_item l d)) <-> In k (dict_keys d) \/ In k (map fst l).
Proof.
  revert d. induction l as [|[k0 v0] l IH]; intros d; simpl.
  - tauto.
  - rewrite IH. unfold set_item. simpl. rewrite dict_keys_set.
    split; intros H; intuition (subst; auto).
Qed.

Lemma fold_set_NoDup (l : list (string * V)) d :
  NoDup (dict_keys d) -> NoDup (dict_keys (fold_left set_item l d)).
Proof.
  revert d. induction l as [|[k0 v0] l IH]; intros d Hnd; simpl; [exact Hnd|].
  apply IH. now apply dict_set_NoDup.
Qed.

Lemma fold_set_get_other (l : list (string * V)) d k :
  ~ In k (map fst l) -> dict_get k (fold_left set_item l d) = dict_get k d.
Proof.
  revert d. induction l as [|[k0 v0] l IH]; intros d Hnotin; simpl in *; [reflexivity|].
  rewrite IH by tauto. unfold set_item. simpl.
  apply dict_get_set_neq. intros ->. tauto.
Qed.

Lemma fold_set_get (l : list (string * V)) d k v :
  NoDup (map fst l) -> In (k, v) l -> dict_get k (fold_left set_item l d) = Some v.
Proof.
  revert d. induction l as [|[k0 v0] l IH]; intros d Hnd Hin; simpl in *; [contradiction|].
  inversion Hnd as [|? ? Hnotin Hnd']; subst.
  destruct Hin as [[= -> ->]|Hin].
  - rewrite fold_set_get_other by exact Hnotin.
    unfold set_item. simpl. apply dict_get_set_eq.
  - now apply IH.
Qed.

Lemma dict_of_keys (l : list (string * V)) k :
  In k (dict_keys (dict_of l)) <-> In k (map fst l).
Proof.
  unfold dict_of.
  rewrite fold_set_keys. simpl. tauto.
Qed.

Lemma dict_of_NoDup (l : list (string * V)) : NoDup (dict_keys (dict_of l)).
Proof.
  unfold dict_of.
  apply fold_set_NoDup. constructor.
Qed.

Lemma dict_of_get (l : list (string * V)) k v :
  NoDup (map fst l) -> In (k, v) l -> dict_get k (dict_of l) = Some v.
Proof.
  unfold dict_of.
  apply fold_set_get.
Qed.

Lemma dict_get_filter (p : string -> bool) d k :
  dict_get k (dict_filter p d) = if p k then dict_get k d else None.
Proof.
  induction d as [|[k0 v0] d IH]; simpl.
  - now destruct (p k).
  - destruct (p k0) eqn:Hp0; simpl.
    + destruct (String.eqb_spec k k0) as [->|Hne]; [now rewrite Hp0 | exact IH].
    + destruct (String.eqb_spec k k0) as [->|Hne]; [now rewrite IH, Hp0 | exact IH].
Qed.

Lemma dict_filter_NoDup (p : string -> bool) d :
  NoDup (dict_keys d) -> NoDup (dict_keys (dict_filter p d)).
Proof.
  induction d as [|[k0 v0] d IH]; simpl; intros Hnd; [constructor|].
  inversion Hnd as [|? ? Hnotin Hnd']; subst.
  destruct (p k0); simpl; [|now apply IH].
  constructor; [|now apply IH].
  intros Hin. apply Hnotin. unfold dict_keys, dict_filter in Hin.
  apply in_map_iff in Hin. destruct Hin as [[k1 v1] [Heq Hin]].
  apply filter_In in Hin. simpl in Heq. subst.
  apply in_map_iff. exists (k0, v1). tauto.
Qed.

Lemma dict_get_NoDup_In k v d : NoDup (dict_keys d) -> In (k, v) d -> dict_get k d = Some v.
Proof.
  induction d as [|[k0 v0] d IH]; simpl; intros Hnd Hin; [contradiction|].
  inversion Hnd as [|? ? Hnotin Hnd']; subst.
  destruct Hin as [[= -> ->]|Hin].
  - now rewrite String.eqb_refl.
  - destruct (String.eqb_spec k k0) as [->|Hne]; [|now apply IH].
    exfalso. apply Hnotin. apply in_map_iff. now exists (k0, v).
Qed.
End DictFacts.

(** ** Validation of the configuration *)

Lemma check_attrs_ok (valid : list string) (sensor : string) (attrs : list string) :
  check_attrs valid sensor attrs = Return tt <-> forall a, In a attrs -> In a valid.
Proof.
  induction attrs as [|a attrs IH]; simpl.
  - split; [intros _ ? [] | reflexivity].
  - destruct (py_in a valid) eqn:Hin.
    + apply py_in_In in Hin. rewrite IH. split.
      * intros H b [<-|Hb]; auto.
      * intros H b Hb. apply H. now right.
    + apply py_in_false in Hin. split; [discriminate|].
      intros H. exfalso. apply Hin, H. now left.
Qed.

Lemma check_attrs_shape (valid : list string) (sensor : string) (attrs : list string) :
  check_attrs valid sensor attrs = Return tt \/
  exists msg, check_attrs valid sensor attrs = Raise (Invalid msg).
Proof.
  induction attrs as [|a attrs IH]; simpl; [now left|].
  destruct (py_in a valid); [exact IH | right; eauto].
Qed.

Lemma check_sensors_ok (valid : list string) (items : list (string * list string)) :
  check_sensors valid items = Return tt <->
  forall name, In name (configured_names items) -> In name valid.
Proof.
  induction items as [|[sensor attrs] items IH]; simpl.
  - split; [intros _ ? [] | reflexivity].
  - destruct (py_in sensor valid) eqn:Hin; simpl.
    + apply py_in_In in Hin.
      destruct (check_attrs_shape valid sensor attrs) as [Hok|[msg Herr]].
      * rewrite Hok. simpl. rewrite IH.
        pose proof (proj1 (check_attrs_ok valid sensor attrs) Hok) as Hattrs.
        split.
        -- intros H name [<-|Hname]; [exact Hin|].
           apply in_app_or in Hname. destruct Hname; auto.
        -- intros H name Hname. apply H. right. apply in_or_app. now right.
      * rewrite Herr. simpl. split; [discriminate|].
        intros H. assert (Hok : check_attrs valid sensor attrs = Return tt).
        { apply check_attrs_ok. intros a Ha. apply H. right. apply in_or_app. now left. }
        congruence.
    + apply py_in_false in Hin. split; [discriminate|].
      intros H. exfalso. apply Hin, H. now left.
Qed.

Lemma check_sensors_shape (valid : list string) (items : list (string * list string)) :
  check_sensors valid items = Return tt \/
  exists msg, check_sensors valid items = Raise (Invalid msg).
Proof.
  induction items as [|[sensor attrs] items IH]; simpl; [now left|].
  destruct (py_in sensor valid); simpl; [|right; eauto].
  destruct (check_attrs_shape valid sensor attrs) as [->|[msg ->]]; simpl;
    [exact IH | right; eauto].
Qed.

Lemma valid_resolves (customs : list string) (name : string) :
  In name (customs ++ SENSOR_OPTIONS)%list <-> resolves customs name.
Proof. unfold resolves. rewrite in_app_iff. tauto. Qed.

Lemma check_sensor_schema_ok (conf : config) :
  _check_sensor_schema conf = Return conf <->
  forall name, In name (configured_names (conf_sensors conf)) ->
               resolves (dict_keys (conf_custom conf)) name.
Proof.
  unfold _check_sensor_schema.
  destruct (check_sensors_shape (dict_keys (conf_custom conf) ++ SENSOR_OPTIONS)
              (conf_sensors conf)) as [Hok|[msg Herr]].
  - rewrite Hok. simpl. split; [intros _|reflexivity].
    intros name Hname. apply valid_resolves.
    now apply (proj1 (check_sensors_ok _ _) Hok).
  - rewrite Herr. simpl. split; [discriminate|].
    intros H. assert (Hok : check_sensors (dict_keys (conf_custom conf) ++ SENSOR_OPTIONS)
                              (conf_sensors conf) = Return tt).
    { apply check_sensors_ok. intros name Hname. apply valid_resolves. now apply H. }
    congruence.
Qed.

Lemma check_sensor_schema_shape (conf : config) :
  _check_sensor_schema conf = Return conf \/
  exists msg, _check_sensor_schema conf = Raise (Invalid msg).
Proof.
  unfold _check_sensor_schema.
  destruct (check_sensors_shape (dict_keys (conf_custom conf) ++ SENSOR_OPTIONS)
              (conf_sensors conf)) as [->|[msg ->]]; simpl; [now left | right; eauto].
Qed.

Lemma CUSTOM_SCHEMA_shape (raw : raw_custom) :
  (exists prop, CUSTOM_SCHEMA raw = Return prop) \/
  exists msg, CUSTOM_SCHEMA raw = Raise (Invalid msg).
Proof.
  unfold CUSTOM_SCHEMA.
  destruct (raw_extra raw); [|right; eauto].
  destruct (raw_key raw) as [k|]; [|right; eauto].
  destruct (String.length k <? 13)%nat; [right; eauto|].
  destruct (13 <? String.length k)%nat; [right; eauto|].
  destruct (raw_unit raw); [left | right]; eauto.
Qed.

Lemma validate_customs_shape (items : list (string * raw_custom)) :
  (exists customs, validate_customs items = Return customs /\
                   dict_keys customs = dict_keys items) \/
  exists msg, validate_customs items = Raise (Invalid msg).
Proof.
  induction items as [|[name raw] items IH]; simpl.
  - left. now exists [].
  - destruct (CUSTOM_SCHEMA_shape raw) as [[prop ->]|[msg ->]]; simpl; [|right; eauto].
    destruct IH as [[customs [-> Hkeys]]|[msg ->]]; simpl; [|right; eauto].
    left. eexists. split; [reflexivity|]. simpl. now rewrite Hkeys.
Qed.

(** C6.  [_check_sensor_schema] accepts a configuration exactly when
    every configured sensor name and every attribute name listed under a
    sensor is a built-in metric name or a declared custom sensor name;
    otherwise it raises [vol.Invalid].  A raw configuration with a name
    that does not resolve is refused by [PLATFORM_SCHEMA], so loading it
    yields no platform, hence no handler that could poll. *)
Theorem check_sensor_schema_rejects_unresolved (conf : config) :
  (_check_sensor_schema conf = Return conf <->
   forall name, In name (configured_names (conf_sensors conf)) ->
                resolves (dict_keys (conf_custom conf)) name) /\
  ((exists name, In name (configured_names (conf_sensors conf)) /\
                 ~ resolves (dict_keys (conf_custom conf)) name) ->
   exists msg, _check_sensor_schema conf = Raise (Invalid msg)) /\
  (forall pysma raw,
     raw_sensors raw = conf_sensors conf ->
     dict_keys (raw_customs raw) = dict_keys (conf_custom conf) ->
     (exists name, In name (configured_names (conf_sensors conf)) /\
                   ~ resolves (dict_keys (conf_custom conf)) name) ->
     exists msg, PLATFORM_SCHEMA raw = Raise (Invalid msg) /\
                 load_platform pysma raw = Raise (Invalid msg)).
Proof.
  assert (Hrej : forall c,
             (exists name, In name (configured_names (conf_sensors c)) /\
                           ~ resolves (dict_keys (conf_custom c)) name) ->
             exists msg, _check_sensor_schema c = Raise (Invalid msg)).
  { intros c [name [Hname Hnot]].
    destruct (check_sensor_schema_shape c) as [Hok|Herr]; [|exact Herr].
    exfalso. apply Hnot. now apply (proj1 (check_sensor_schema_ok c) Hok). }
  split; [apply check_sensor_schema_ok|].
  split; [apply Hrej|].
  intros pysma raw Hsensors Hkeys Hbad.
  unfold load_platform, PLATFORM_SCHEMA.
  destruct (validate_customs_shape (raw_customs raw)) as [[customs [-> Hk]]|[msg ->]];
    simpl; [|eauto].
  destruct (Hrej {| conf_sensors := raw_sensors raw; conf_custom := customs |})
    as [msg Hmsg].
  { simpl. rewrite Hsensors, Hk, Hkeys. exact Hbad. }
  exists msg. rewrite Hmsg. simpl. auto.
Qed.

Lemma check_sensor_schema_rejects_unresolved_witness :
  (exists name,
     In name (configured_names [("total_yield", ["current_power"; "voltage"])]) /\
     ~ resolves [] name) /\
  exists msg,
    _check_sensor_schema
      {| conf_sensors := [("total_yield", ["current_power"; "voltage"])];
         conf_custom := [] |} = Raise (Invalid msg).
Proof.
  assert (Hbad : exists name,
             In name (configured_names [("total_yield", ["current_power"; "voltage"])]) /\
             ~ resolves [] name).
  { exists "voltage". split; [simpl; tauto|].
    intros [H|[]]. simpl in H. intuition discriminate. }
  split; [exact Hbad|].
  exact (proj1 (proj2 (check_sensor_schema_rejects_unresolved
                         {| conf_sensors := [("total_yield", ["current_power"; "voltage"])];
                            conf_custom := [] |})) Hbad).
Defined.

(** C7.  [CUSTOM_SCHEMA] returns a definition only for a key of exactly
    13 characters and a unit that is present, with the factor given or
    else 1; it raises [vol.Invalid] for a key of any other length and
    for a missing key or unit; and it accepts every entry that has a
    13-character key, a unit and no unknown field. *)
Theorem custom_schema_key_unit_factor (raw : raw_custom) :
  (forall prop, CUSTOM_SCHEMA raw = Return prop ->
     raw_key raw = Some (prop_key prop) /\
     String.length (prop_key prop) = 13%nat /\
     raw_unit raw = Some (prop_unit prop) /\
     prop_factor prop = match raw_factor raw with Some f => f | None => 1 end) /\
  (forall k, raw_key raw = Some k -> String.length k <> 13%nat ->
     exists msg, CUSTOM_SCHEMA raw = Raise (Invalid msg)) /\
  (raw_key raw = None \/ raw_unit raw = None ->
     exists msg, CUSTOM_SCHEMA raw = Raise (Invalid msg)) /\
  (forall k u, raw_key raw = Some k -> String.length k = 13%nat ->
     raw_unit raw = Some u -> raw_extra raw = [] ->
     CUSTOM_SCHEMA raw =
       Return {| prop_key := k; prop_unit := u;
                 prop_factor := match raw_factor raw with Some f => f | None => 1 end |} /\
     (raw_factor raw = None ->
      CUSTOM_SCHEMA raw = Return {| prop_key := k; prop_unit := u; prop_factor := 1 |})).
Proof.
  unfold CUSTOM_SCHEMA.
  split; [|split; [|split]].
  - intros prop.
    destruct (raw_extra raw); [|discriminate].
    destruct (raw_key raw) as [k|]; [|discriminate].
    destruct (Nat.ltb_spec (String.length k) 13); [discriminate|].
    destruct (Nat.ltb_spec 13 (String.length k)); [discriminate|].
    destruct (raw_unit raw); [|discriminate].
    intros [= <-]. simpl. repeat split. lia.
  - intros k -> Hlen. destruct (raw_extra raw); [|eauto].
    destruct (Nat.ltb_spec (String.length k) 13); [eauto|].
    destruct (Nat.ltb_spec 13 (String.length k)); [eauto|]. lia.
  - intros [->| ->]; destruct (raw_extra raw); eauto.
    destruct (raw_key raw) as [k|]; [|eauto].
    destruct (String.length k <? 13)%nat; [eauto|].
    destruct (13 <? String.length k)%nat; eauto.
  - intros k u -> Hlen -> ->. rewrite Hlen. simpl.
    split; [reflexivity|]. now intros ->.
Qed.

Lemma custom_schema_key_unit_factor_witness :
  String.length "6380_40251E0" <> 13%nat /\
  (exists msg,
     CUSTOM_SCHEMA {| raw_key := Some "6380_40251E0"; raw_unit := Some "V";
                      raw_factor := None; raw_extra := [] |} = Raise (Invalid msg)) /\
  CUSTOM_SCHEMA {| raw_key := Some "6380_40251E00"; raw_unit := Some "V";
                   raw_factor := None; raw_extra := [] |}
  = Return {| prop_key := "6380_40251E00"; prop_unit := "V"; prop_factor := 1 |}.
Proof.
  split; [discriminate|]. split.
  - apply (proj1 (proj2 (custom_schema_key_unit_factor
                           {| raw_key := Some "6380_40251E0"; raw_unit := Some "V";
                              raw_factor := None; raw_extra := [] |}))
             "6380_40251E0" eq_refl).
    discriminate.
  - apply (proj2 (proj2 (proj2 (custom_schema_key_unit_factor
                                  {| raw_key := Some "6380_40251E00"; raw_unit := Some "V";
                                     raw_factor := None; raw_extra := [] |})))
             "6380_40251E00" "V" eq_refl eq_refl eq_refl eq_refl).
    reflexivity.
Defined.

(** ** The backoff counter *)

Lemma sample_platform_setup :
  async_setup_platform sample_pysma sample_config = Return sample_platform.
Proof. reflexivity. Qed.

(** What one run of the handler does to the counter, by cases on the
    counter and on the reply. *)
Lemma async_sma_backoff (p : platform) (reply : option (list (option Z))) :
  (1 < backoff p /\
   backoff (fst (async_sma p reply)) = backoff p - 1 /\
   polled (snd (async_sma p reply)) = false) \/
  (backoff p <= 1 /\ reply = None /\
   backoff (fst (async_sma p reply)) = 3 /\
   polled (snd (async_sma p reply)) = true) \/
  (backoff p <= 1 /\ reply <> None /\
   backoff (fst (async_sma p reply)) = backoff p /\
   polled (snd (async_sma p reply)) = true).
Proof.
  unfold async_sma.
  destruct (Z.ltb_spec 1 (backoff p)) as [Hgt|Hle]; [left; simpl; auto|].
  right. destruct reply as [values|]; [right | left; simpl; auto].
  destruct (effective_values p values) as [res|e]; simpl; [|split; [lia | easy]].
  destruct (update_sensors res (hass_sensors p) []) as [sensors [tasks|e]]; simpl;
    (split; [lia | easy]).
Qed.

Lemma async_sma_skip (p : platform) (reply : option (list (option Z))) :
  1 < backoff p ->
  async_sma p reply =
    (set_backoff p (backoff p - 1), {| polled := false; notified := []; raised := None |}).
Proof.
  intros H. unfold async_sma. apply Z.ltb_lt in H. now rewrite H.
Qed.

Lemma polled_iff (p : platform) (reply : option (list (option Z))) :
  polled (snd (async_sma p reply)) = true <-> backoff p <= 1.
Proof.
  destruct (async_sma_backoff p reply) as [[H [_ Hp]]|[[H [_ [_ Hp]]]|[H [_ [_ Hp]]]]];
    rewrite Hp; split; intros; (lia || congruence).
Qed.

Lemma run_cons (p : platform) reply replies :
  run p (reply :: replies) =
    (fst (run (fst (async_sma p reply)) replies),
     snd (async_sma p reply) :: snd (run (fst (async_sma p reply)) replies)).
Proof.
  simpl. destruct (async_sma p reply) as [p' o]. simpl.
  now destruct (run p' replies).
Qed.

Lemma run_backoff_range (p : platform) replies :
  0 <= backoff p <= 3 -> 0 <= backoff (fst (run p replies)) <= 3.
Proof.
  revert p. induction replies as [|reply replies IH]; intros p Hp; [exact Hp|].
  rewrite run_cons. simpl. apply IH.
  destruct (async_sma_backoff p reply) as [[H [Hb _]]|[[H [_ [Hb _]]]|[H [_ [Hb _]]]]]; lia.
Qed.

Lemma run_backoff_positive (p : platform) replies :
  1 <= backoff p -> 1 <= backoff (fst (run p replies)).
Proof.
  revert p. induction replies as [|reply replies IH]; intros p Hp; [exact Hp|].
  rewrite run_cons. simpl. apply IH.
  destruct (async_sma_backoff p reply) as [[H [Hb _]]|[[H [_ [Hb _]]]|[H [_ [Hb _]]]]]; lia.
Qed.

Lemma setup_backoff pysma config p :
  async_setup_platform pysma config = Return p -> backoff p = 0.
Proof.
  unfold async_setup_platform.
  destruct (fold_left add_custom (conf_custom config) (builtin_defs pysma, []))
    as [all_defs warned].
  destruct (make_entities all_defs (conf_sensors config) [] []) as [[sensors used]|e];
    simpl; [|discriminate].
  destruct (query_keys _ _); simpl; [|discriminate].
  now intros [= <-].
Qed.

(** C1 (as the code behaves).  After a run of the handler in which
    [sma.read] was awaited and returned no result object, the next two
    runs await no read and the third one does, whatever the device would
    have replied in between. *)
Theorem backoff_skips_two_ticks (p : platform) (r1 r2 r3 : option (list (option Z))) :
  polled (snd (async_sma p None)) = true ->
  backoff (fst (async_sma p None)) = 3 /\
  map polled (snd (run (fst (async_sma p None)) [r1; r2; r3])) = [false; false; true].
Proof.
  intros Hpolled. apply polled_iff in Hpolled.
  assert (Hfail : async_sma p None =
                    (set_backoff p 3, {| polled := true; notified := []; raised := None |})).
  { unfold async_sma. destruct (Z.ltb_spec 1 (backoff p)); [lia | reflexivity]. }
  rewrite Hfail. cbn [fst]. split; [reflexivity|].
  rewrite run_cons, async_sma_skip by (simpl; lia). cbn [fst snd].
  rewrite run_cons, async_sma_skip by (simpl; lia). cbn [fst snd].
  rewrite run_cons. cbn [fst snd map polled].
  repeat f_equal. apply polled_iff. simpl. lia.
Qed.

Lemma backoff_skips_two_ticks_witness :
  polled (snd (async_sma sample_platform None)) = true /\
  backoff (fst (async_sma sample_platform None)) = 3 /\
  map polled (snd (run (fst (async_sma sample_platform None))
                       [None; Some [Some 5; Some 7]; None])) = [false; false; true].
Proof.
  split; [reflexivity|].
  apply (backoff_skips_two_ticks sample_platform None (Some [Some 5; Some 7]) None).
  reflexivity.
Defined.

(** C1 as stated fails: on the sample platform, after a failed poll, it
    is not the case that the next three runs await no read and the
    fourth does; the third run already polls. *)
Lemma backoff_three_ticks_counterexample :
  polled (snd (async_sma sample_platform None)) = true /\
  ~ (map polled (snd (run (fst (async_sma sample_platform None))
                          [None; None; None; None])) = [false; false; false; true]).
Proof.
  split; [reflexivity|]. vm_compute. discriminate.
Qed.

(** C10.  From the platform that the setup returns, the counter starts
    at 0 and the first run polls; after any number of runs the counter
    is 0, 1, 2 or 3; a run leaves it at 3 exactly when it polled and got
    no result object; a run lowers it only from a value above 1, by one,
    and without polling; once it is at least 1 it stays at least 1; and
    at 1 the handler polls, and stays at 1 when the poll gives a
    result. *)
Theorem backoff_counter_range (pysma : pysma_module) (config : config)
  (p0 : platform) (replies : list (option (list (option Z)))) :
  async_setup_platform pysma config = Return p0 ->
  backoff p0 = 0 /\
  (forall reply, polled (snd (async_sma p0 reply)) = true) /\
  let p := fst (run p0 replies) in
  (backoff p = 0 \/ backoff p = 1 \/ backoff p = 2 \/ backoff p = 3) /\
  (forall reply,
     let p' := fst (async_sma p reply) in
     let o := snd (async_sma p reply) in
     (backoff p' = 3 <-> polled o = true /\ reply = None) /\
     (backoff p' < backoff p ->
      1 < backoff p /\ backoff p' = backoff p - 1 /\ polled o = false) /\
     (1 < backoff p -> backoff p' = backoff p - 1) /\
     (backoff p = 1 -> polled o = true /\ (reply <> None -> backoff p' = 1))) /\
  (forall more, 1 <= backoff p -> 1 <= backoff (fst (run p more))).
Proof.
  intros Hsetup. pose proof (setup_backoff _ _ _ Hsetup) as H0.
  split; [exact H0|].
  split; [intros reply; apply polled_iff; lia|].
  intros p.
  assert (Hrange : 0 <= backoff p <= 3) by (apply run_backoff_range; lia).
  split; [lia|].
  split; [|intros more; apply run_backoff_positive].
  intros reply p' o. subst p' o.
  destruct (async_sma_backoff p reply)
    as [[H [Hb Hp]]|[[H [Hr [Hb Hp]]]|[H [Hr [Hb Hp]]]]]; rewrite Hb, Hp;
    intuition (try lia; try congruence).
Qed.

Lemma backoff_counter_range_witness :
  async_setup_platform sample_pysma sample_config = Return sample_platform /\
  let p := fst (run sample_platform [None; None; Some [Some 5; Some 7]]) in
  (backoff p = 0 \/ backoff p = 1 \/ backoff p = 2 \/ backoff p = 3) /\
  (forall more, 1 <= backoff p -> 1 <= backoff (fst (run p more))).
Proof.
  split; [reflexivity|].
  destruct (backoff_counter_range sample_pysma sample_config sample_platform
              [None; None; Some [Some 5; Some 7]] eq_refl) as [_ [_ [Hr [_ Hpos]]]].
  exact (conj Hr Hpos).
Defined.

(** ** The update of one sensor *)

Lemma set_attr_same (self : SMAsensor) : set_attr self (_attr self) = self.
Proof. now destruct self. Qed.

Lemma state_ne_false (new_state : Z) (state : option Z) :
  state_ne new_state state = false <-> state = Some new_state.
Proof.
  destruct state as [old|]; simpl.
  - rewrite negb_false_iff, Z.eqb_eq. split; congruence.
  - split; discriminate.
Qed.


(** When the loop over the attributes ends without an exception, the
    keys are the same, every entry holds its display string, and the
    flag is set exactly when it was set before or some entry differed. *)
Lemma update_attrs_result (key_values : dict Z) (defs : dict sensor_def)
  (items : dict string) (update : bool) (items' : dict string) (update' : bool) :
  update_attrs key_values defs items update = (items', update', None) ->
  dict_keys items' = dict_keys items /\
  Forall (fun item => attr_string key_values defs (fst item) = Some (snd item)) items' /\
  (update' = true <->
   update = true \/
   exists key val, In (key, val) items /\ attr_string key_values defs key <> Some val).
Proof.
  revert update items' update'.
  induction items as [|[key val] items IH]; intros update items' update'; simpl.
  - intros [= <- <-]. repeat split; auto.
    intros [H|[key [val [[] _]]]]; exact H.
  - destruct (dict_get key key_values) as [v|] eqn:Hv; [|discriminate].
    destruct (dict_get key defs) as [[[k unit] f]|] eqn:Hd; [|discriminate].
    destruct (update_attrs key_values defs items
                (if negb (String.eqb val (format2 v unit)) then true else update))
      as [[rest' u'] e] eqn:Hrec.
    intros [= <- <- ->].
    destruct (IH _ _ _ Hrec) as [Hkeys [Hcur Hflag]].
    split; [simpl; now rewrite Hkeys|].
    assert (Hnew : attr_string key_values defs key = Some (format2 v unit)).
    { unfold attr_string. now rewrite Hv, Hd. }
    split.
    + constructor; [|exact Hcur]. simpl.
      destruct (String.eqb_spec val (format2 v unit)) as [->|_]; exact Hnew.
    + rewrite Hflag. destruct (String.eqb_spec val (format2 v unit)) as [Heq|Hne]; cbn [negb].
      * split.
        -- intros [H|[key' [val' [Hin Hdiff]]]]; [now left|].
           right. exists key', val'. split; [now right | exact Hdiff].
        -- intros [H|[key' [val' [[[= <- <-]|Hin] Hdiff]]]]; [now left| |].
           ++ exfalso. apply Hdiff. now rewrite Hnew, Heq.
           ++ right. now exists key', val'.
      * split; [intros _|now left].
        right. exists key, val. split; [now left|].
        rewrite Hnew. congruence.
Qed.

Lemma update_attrs_keys (key_values : dict Z) (defs : dict sensor_def)
  (items : dict string) (update : bool) :
  dict_keys (fst (fst (update_attrs key_values defs items update))) = dict_keys items.
Proof.
  revert update. induction items as [|[key val] items IH]; intros update; simpl;
    [reflexivity|].
  destruct (dict_get key key_values) as [v|]; [|reflexivity].
  destruct (dict_get key defs) as [[[k unit] f]|]; [|reflexivity].
  specialize (IH (if negb (String.eqb val (format2 v unit)) then true else update)).
  destruct (update_attrs key_values defs items _) as [[rest' u'] e].
  simpl in *. now rewrite IH.
Qed.


(** What a call that returns leaves behind, and when it returns a task. *)
Lemma async_update_values_result (self : SMAsensor) (key_values : dict Z)
  (self' : SMAsensor) (changed : bool) :
  async_update_values self key_values = (self', Return changed) ->
  shows key_values self' /\
  (_name self' = _name self /\ _key self' = _key self /\
   _unit_of_measurement self' = _unit_of_measurement self /\
   _sensor_defs self' = _sensor_defs self /\
   dict_keys (_attr self') = dict_keys (_attr self)) /\
  (changed = true <->
   _state self <> dict_get (_name self) key_values \/
   exists key val, In (key, val) (_attr self) /\
                   attr_string key_values (_sensor_defs self) key <> Some val).
Proof.
  unfold async_update_values.
  destruct (update_attrs key_values (_sensor_defs self) (_attr self) false)
    as [[attr update] e] eqn:Hloop.
  destruct e as [e|]; [discriminate|].
  destruct (update_attrs_result _ _ _ _ _ _ Hloop) as [Hkeys [Hcur Hflag]].
  simpl. destruct (dict_get (_name self) key_values) as [v|] eqn:Hv; [|discriminate].
  destruct (state_ne v (_state self)) eqn:Hne; intros [= <- <-]; simpl.
  - split; [split; [now exists v | exact Hcur]|].
    split; [auto|]. split; [intros _|reflexivity].
    left. intros Heq. apply state_ne_false in Heq. congruence.
  - apply state_ne_false in Hne.
    split; [split; [now exists v | exact Hcur]|].
    split; [auto|]. rewrite Hflag. split.
    + intros [H|H]; [discriminate | now right].
    + intros [H|H]; [congruence | now right].
Qed.



(** ** The setup *)

Lemma builtin_defs_eq (pysma : pysma_module) :
  builtin_defs pysma =
    [("current_consumption", (KEY_CURRENT_CONSUMPTION_W pysma, "W", 1));
     ("current_power", (KEY_CURRENT_POWER_W pysma, "W", 1));
     ("total_consumption", (KEY_TOTAL_CONSUMPTION_KWH pysma, "kWh", 1000));
     ("total_yield", (KEY_TOTAL_YIELD_KWH pysma, "kWh", 1000))].
Proof. reflexivity. Qed.

Lemma fold_add_custom (customs : dict custom_prop) (defs : dict sensor_def)
  (warned : list string) :
  fst (fold_left add_custom customs (defs, warned)) =
    fold_left set_item (map (fun item => (fst item, custom_def (snd item))) customs) defs.
Proof.
  revert defs warned. induction customs as [|[name prop] customs IH];
    intros defs warned; simpl; [reflexivity|].
  now rewrite IH.
Qed.

Lemma fold_add_custom_warned (customs : dict custom_prop) (defs : dict sensor_def)
  (warned : list string) :
  NoDup (dict_keys customs) ->
  snd (fold_left add_custom customs (defs, warned)) =
    (warned ++ filter (fun name => dict_mem name defs) (dict_keys customs))%list.
Proof.
  revert defs warned. induction customs as [|[name prop] customs IH];
    intros defs warned Hnd; simpl.
  - now rewrite app_nil_r.
  - inversion Hnd as [|? ? Hnotin Hnd']; subst.
    rewrite IH by exact Hnd'.
    assert (Hsame : filter (fun n => dict_mem n (dict_set name (custom_def prop) defs))
                           (dict_keys customs)
                    = filter (fun n => dict_mem n defs) (dict_keys customs)).
    { apply filter_ext_in. intros n Hn. unfold dict_mem.
      rewrite dict_get_set_neq; [reflexivity|]. intros ->. contradiction. }
    rewrite Hsame. destruct (dict_mem name defs); [|reflexivity].
    now rewrite <- app_assoc.
Qed.

Lemma all_defs_get (customs : dict custom_prop) (defs : dict sensor_def) (name : string) :
  NoDup (dict_keys customs) ->
  dict_get name (fst (fold_left add_custom customs (defs, []))) =
    match dict_get name customs with
    | Some prop => Some (custom_def prop)
    | None => dict_get name defs
    end.
Proof.
  intros Hnd. rewrite fold_add_custom.
  destruct (dict_get name customs) as [prop|] eqn:Hget.
  - apply fold_set_get.
    + rewrite map_map. simpl. exact Hnd.
    + apply dict_get_In in Hget.
      apply in_map_iff. now exists (name, prop).
  - apply fold_set_get_other. rewrite map_map. simpl.
    intros Hin. apply (dict_get_keys name customs) in Hin. congruence.
Qed.

Lemma all_defs_keys (customs : dict custom_prop) (defs : dict sensor_def) (name : string) :
  In name (dict_keys (fst (fold_left add_custom customs (defs, [])))) <->
  In name (dict_keys defs) \/ In name (dict_keys customs).
Proof.
  rewrite fold_add_custom, fold_set_keys, map_map. simpl. reflexivity.
Qed.

Lemma all_defs_NoDup (customs : dict custom_prop) (defs : dict sensor_def) :
  NoDup (dict_keys defs) ->
  NoDup (dict_keys (fst (fold_left add_custom customs (defs, [])))).
Proof. intros H. rewrite fold_add_custom. now apply fold_set_NoDup. Qed.

(** The loop that builds the entities: either every sensor name is in
    the table and the loop appends one sensor per item and the names it
    met, or the constructor raises [KeyError] on a missing name. *)
Lemma make_entities_spec (defs : dict sensor_def) (items : list (string * list string))
  (sensors : list SMAsensor) (used : list string) :
  match make_entities defs items sensors used with
  | Return (sensors', used') =>
      used' = (used ++ configured_names items)%list /\
      exists new, sensors' = (sensors ++ new)%list /\
        Forall2 (fun item sensor =>
                   SMAsensor_init (fst item) (snd item) defs = Return sensor) items new
  | Raise e => exists name, e = KeyError name /\ In name (dict_keys items) /\
                            dict_get name defs = None
  end.
Proof.
  revert sensors used. induction items as [|[name attr] items IH]; intros sensors used; simpl.
  - split; [now rewrite app_nil_r|]. exists []. now rewrite app_nil_r.
  - unfold SMAsensor_init, getitem.
    destruct (dict_get name defs) as [[[key unit] f]|] eqn:Hget; simpl.
    + match goal with |- context [make_entities defs items ?s ?u] =>
        specialize (IH s u); destruct (make_entities defs items s u) as [[s' u']|e] end.
      * destruct IH as [-> [new [-> Hall]]]. split.
        -- now rewrite <- !app_assoc.
        -- eexists (_ :: new). rewrite <- app_assoc. split; [reflexivity|].
           constructor; [|exact Hall].
           unfold SMAsensor_init, getitem. simpl. now rewrite Hget.
      * destruct IH as [n [-> [Hin Hnone]]]. exists n. auto.
    + exists name. auto.
Qed.

Lemma query_keys_spec (defs : dict sensor_def) (names : list string) :
  (forall name, In name names -> In name (dict_keys defs)) ->
  exists keys, query_keys defs names = Return keys /\
    Forall2 (fun name key => exists unit f, dict_get name defs = Some (key, unit, f))
            names keys.
Proof.
  induction names as [|name names IH]; intros Hall; simpl.
  - now exists [].
  - destruct (dict_keys_get name defs) as [[[key unit] f] Hget]; [apply Hall; now left|].
    destruct IH as [keys [Hq Hf]]; [intros n Hn; apply Hall; now right|].
    unfold getitem. rewrite Hget. simpl. rewrite Hq. simpl.
    exists (key :: keys). split; [reflexivity|].
    constructor; [now exists unit, f | exact Hf].
Qed.

(** The shape of a successful setup. *)
Lemma setup_spec (pysma : pysma_module) (config : config) (p : platform) :
  async_setup_platform pysma config = Return p ->
  let all_defs := fst (fold_left add_custom (conf_custom config) (builtin_defs pysma, [])) in
  let used := configured_names (conf_sensors config) in
  sensor_defs p = dict_filter (fun name => py_in name used) all_defs /\
  names_to_query p = dict_keys (sensor_defs p) /\
  query_keys (sensor_defs p) (names_to_query p) = Return (keys_to_query p) /\
  backoff p = 0 /\
  warnings p = snd (fold_left add_custom (conf_custom config) (builtin_defs pysma, [])) /\
  Forall2 (fun item sensor =>
             SMAsensor_init (fst item) (snd item) all_defs = Return sensor)
          (conf_sensors config) (hass_sensors p).
Proof.
  unfold async_setup_platform.
  destruct (fold_left add_custom (conf_custom config) (builtin_defs pysma, []))
    as [all_defs warned]. simpl fst. simpl snd.
  pose proof (make_entities_spec all_defs (conf_sensors config) [] []) as Hmk.
  destruct (make_entities all_defs (conf_sensors config) [] []) as [[sensors used]|e];
    [|discriminate].
  destruct Hmk as [Hused [new [Hnew Hall]]]. simpl in Hused, Hnew. subst used sensors.
  cbn [bind].
  destruct (query_keys _ _) as [keys|e] eqn:Hq; [|discriminate].
  cbn [bind]. intros [= <-]. cbn. repeat split; auto.
Qed.

(** C8.  The built-in table has the four entries of [SENSOR_OPTIONS].
    After a setup that returns, looking a name up in the table the
    handler uses gives nothing for a name that no configured sensor
    refers to, as name or as attribute, and otherwise the custom
    definition of that name if there is one, else the built-in one; the
    warning was logged for exactly the custom names that are built-in
    names; and the names queried are the keys of that table, all of
    them referred to, with [keys_to_query] their device keys. *)
Theorem setup_registry (pysma : pysma_module) (config : config) (p : platform) :
  NoDup (dict_keys (conf_custom config)) ->
  async_setup_platform pysma config = Return p ->
  let used := configured_names (conf_sensors config) in
  (List.length (builtin_defs pysma) = 4%nat /\
   dict_keys (builtin_defs pysma) = SENSOR_OPTIONS) /\
  (forall name,
     dict_get name (sensor_defs p) =
       if py_in name used then
         match dict_get name (conf_custom config) with
         | Some prop => Some (prop_key prop, prop_unit prop, prop_factor prop)
         | None => dict_get name (builtin_defs pysma)
         end
       else None) /\
  warnings p = filter (fun name => py_in name SENSOR_OPTIONS)
                      (dict_keys (conf_custom config)) /\
  names_to_query p = dict_keys (sensor_defs p) /\
  (forall name, In name (names_to_query p) -> In name used) /\
  Forall2 (fun name key => exists unit f, dict_get name (sensor_defs p) = Some (key, unit, f))
          (names_to_query p) (keys_to_query p).
Proof.
  intros Hnd Hsetup used.
  destruct (setup_spec _ _ _ Hsetup) as [Hdefs [Hnames [Hkeys [_ [Hwarn _]]]]].
  split; [split; reflexivity|].
  assert (Hget : forall name,
             dict_get name (sensor_defs p) =
               if py_in name used then
                 match dict_get name (conf_custom config) with
                 | Some prop => Some (prop_key prop, prop_unit prop, prop_factor prop)
                 | None => dict_get name (builtin_defs pysma)
                 end
               else None).
  { intros name. rewrite Hdefs, dict_get_filter. fold used.
    destruct (py_in name used); [|reflexivity].
    now rewrite all_defs_get. }
  split; [exact Hget|].
  split.
  { rewrite Hwarn, fold_add_custom_warned by exact Hnd. cbn [app].
    apply filter_ext. intros name. unfold dict_mem.
    destruct (dict_get name (builtin_defs pysma)) eqn:Hb.
    - symmetry. apply py_in_In. apply dict_get_some_keys in Hb. exact Hb.
    - symmetry. apply py_in_false. intros Hin.
      apply (dict_get_keys name (builtin_defs pysma)) in Hin. congruence. }
  split; [exact Hnames|].
  split.
  { intros name Hin. rewrite Hnames in Hin. apply dict_keys_get in Hin.
    destruct Hin as [v Hv]. rewrite Hget in Hv.
    destruct (py_in name used) eqn:Hu; [now apply py_in_In | discriminate]. }
  destruct (query_keys_spec (sensor_defs p) (names_to_query p)) as [keys [Hq Hf]].
  { intros name. now rewrite Hnames. }
  rewrite Hkeys in Hq. now injection Hq as <-.
Qed.

Lemma setup_registry_witness :
  NoDup (dict_keys (conf_custom sample_config)) /\
  async_setup_platform sample_pysma sample_config = Return sample_platform /\
  names_to_query sample_platform = dict_keys (sensor_defs sample_platform) /\
  (forall name, In name (names_to_query sample_platform) ->
                In name (configured_names (conf_sensors sample_config))).
Proof.
  split; [constructor|]. split; [reflexivity|].
  destruct (setup_registry sample_pysma sample_config sample_platform
              (NoDup_nil string) eq_refl) as [_ [_ [_ [Hnames [Hused _]]]]].
  exact (conj Hnames Hused).
Defined.

(** ** The mapping passed to the sensors *)

Lemma dict_set_fresh {V : Type} (k : string) (v : V) (d : dict V) :
  ~ In k (dict_keys d) -> dict_set k v d = (d ++ [(k, v)])%list.
Proof.
  induction d as [|[k0 v0] d IH]; simpl; intros Hnotin; [reflexivity|].
  destruct (String.eqb_spec k k0) as [->|Hne]; [tauto|].
  rewrite IH by tauto. reflexivity.
Qed.

Lemma fold_set_fresh {V : Type} (l : list (string * V)) (d : dict V) :
  NoDup (dict_keys d ++ map fst l) -> fold_left set_item l d = (d ++ l)%list.
Proof.
  revert d. induction l as [|[k v] l IH]; intros d Hnd; simpl.
  - now rewrite app_nil_r.
  - unfold set_item at 2. simpl in *.
    rewrite dict_set_fresh.
    + rewrite IH; [now rewrite <- app_assoc|].
      unfold dict_keys. rewrite map_app, <- app_assoc. exact Hnd.
    + apply NoDup_remove_2 in Hnd. intros Hin. apply Hnd.
      apply in_or_app. now left.
Qed.

(** [dict(pairs)] of pairs with distinct keys holds the pairs in order. *)
Lemma dict_of_NoDup_id {V : Type} (l : list (string * V)) :
  NoDup (map fst l) -> dict_of l = l.
Proof. intros Hnd. unfold dict_of. now rewrite fold_set_fresh. Qed.

Lemma combine_keys_NoDup {A : Type} (names : list string) (values : list A) :
  NoDup names -> NoDup (map fst (combine names values)).
Proof.
  revert values. induction names as [|name names IH]; intros values Hnd; simpl;
    [constructor|].
  destruct values as [|v values]; simpl; [constructor|].
  inversion Hnd as [|? ? Hnotin Hnd']; subst.
  constructor; [|now apply IH].
  intros Hin. apply Hnotin. apply in_map_iff in Hin.
  destruct Hin as [[k a] [Heq Hin]]. simpl in Heq. subst.
  now apply in_combine_l in Hin.
Qed.


Lemma combine_zero_if_none (names : list string) (values : list (option Z))
  (name : string) (val : option Z) :
  In (name, val) (combine names values) ->
  In (name, match val with None => 0 | Some v => v end)
     (combine names (zero_if_none values)).
Proof.
  revert values. induction names as [|n names IH]; intros [|v values]; simpl;
    try contradiction.
  intros [[= -> ->]|Hin]; [now left | right; now apply IH].
Qed.

Lemma zero_if_none_length (values : list (option Z)) :
  List.length (zero_if_none values) = List.length values.
Proof. apply length_map. Qed.

(** The division step: when it returns, it keeps the keys, and each
    value is the floor quotient by a non-zero factor. *)
Lemma divide_all_get (defs : dict sensor_def) (items res : dict Z) :
  divide_all defs items = Return res ->
  dict_keys res = dict_keys items /\
  forall k v, In (k, v) items ->
    exists key unit f, dict_get k defs = Some (key, unit, f) /\ f <> 0 /\
                       In (k, v / f) res.
Proof.
  revert res. induction items as [|[k0 v0] items IH]; intros res; simpl.
  - intros [= <-]. split; [reflexivity | intros ? ? []].
  - unfold getitem, floordiv.
    destruct (dict_get k0 defs) as [[[key unit] f]|] eqn:Hget; [|discriminate].
    simpl. destruct (Z.eqb_spec f 0) as [|Hf]; [discriminate|]. simpl.
    destruct (divide_all defs items) as [rest|e]; [|discriminate].
    simpl. intros [= <-]. destruct (IH rest eq_refl) as [Hkeys Hall].
    split; [simpl; now rewrite Hkeys|].
    intros k v [[= -> ->]|Hin].
    + exists key, unit, f. repeat split; auto. now left.
    + destruct (Hall k v Hin) as [key' [unit' [f' [H1 [H2 H3]]]]].
      exists key', unit', f'. repeat split; auto. now right.
Qed.

(** The division step raises only [ZeroDivisionError], on a zero
    factor, when every key is defined. *)
Lemma divide_all_shape (defs : dict sensor_def) (items : dict Z) :
  (forall k, In k (dict_keys items) -> In k (dict_keys defs)) ->
  (exists res, divide_all defs items = Return res) \/
  (divide_all defs items = Raise ZeroDivisionError /\
   exists k key unit, In k (dict_keys items) /\ dict_get k defs = Some (key, unit, 0)).
Proof.
  induction items as [|[k0 v0] items IH]; intros Hkeys; simpl.
  - left. now exists [].
  - destruct (dict_keys_get k0 defs) as [[[key unit] f] Hget]; [apply Hkeys; now left|].
    unfold getitem, floordiv. rewrite Hget. simpl.
    destruct (Z.eqb_spec f 0) as [->|Hf]; simpl.
    + right. split; [reflexivity|]. exists k0, key, unit. auto.
    + destruct IH as [[rest ->]|[-> [k [key' [unit' [Hin Hz]]]]]]; simpl.
      * intros k Hk. apply Hkeys. now right.
      * left. eauto.
      * right. split; [reflexivity|]. exists k, key', unit'. auto.
Qed.

(** The mapping of a well-formed platform: either the division raises
    [ZeroDivisionError] on a zero factor of the table, or the mapping
    has a value for every name paired with a reply value, namely the
    floor quotient of the value (0 for [None]) by the factor. *)
Lemma effective_values_spec (p : platform) (values : list (option Z)) :
  well_formed p ->
  (exists res, effective_values p values = Return res /\
     dict_keys res = map fst (combine (names_to_query p) values) /\
     forall name val, In (name, val) (combine (names_to_query p) values) ->
       exists key unit f,
         dict_get name (sensor_defs p) = Some (key, unit, f) /\ f <> 0 /\
         dict_get name res = Some (match val with None => 0 | Some v => v end / f)) \/
  (effective_values p values = Raise ZeroDivisionError /\
   exists name key unit, dict_get name (sensor_defs p) = Some (key, unit, 0)).
Proof.
  intros [Hnames [Hnd _]]. unfold effective_values.
  assert (Hnd' : NoDup (map fst (combine (names_to_query p) (zero_if_none values))))
    by now apply combine_keys_NoDup.
  assert (Hfst : map fst (combine (names_to_query p) (zero_if_none values))
                 = map fst (combine (names_to_query p) values)).
  { clear Hnd'. unfold zero_if_none. generalize (names_to_query p) as names.
    induction values as [|v values IH]; intros [|n names]; simpl; auto.
    now rewrite IH. }
  rewrite dict_of_NoDup_id by exact Hnd'.
  destruct (divide_all_shape (sensor_defs p)
              (combine (names_to_query p) (zero_if_none values)))
    as [[res Hres]|[Herr [k [key [unit [_ Hz]]]]]].
  - intros k Hk. unfold dict_keys in Hk. apply in_map_iff in Hk.
    destruct Hk as [[k' v] [Heq Hin]]. simpl in Heq. subst k'.
    apply in_combine_l in Hin. now rewrite <- Hnames.
  - left. exists res. split; [exact Hres|].
    destruct (divide_all_get _ _ _ Hres) as [Hkeys Hall].
    split; [unfold dict_keys in *; now rewrite Hkeys, Hfst|].
    intros name val Hin. apply combine_zero_if_none in Hin.
    destruct (Hall _ _ Hin) as [key [unit [f [Hget [Hf Hin']]]]].
    exists key, unit, f. repeat split; auto.
    apply dict_get_NoDup_In; [|exact Hin'].
    unfold dict_keys in *. now rewrite Hkeys.
  - right. split; [exact Herr|]. now exists k, key, unit.
Qed.

(** ** Well-formed platforms *)

Lemma pruned_keys (used : list string) (defs : dict sensor_def) (name : string) :
  In name (dict_keys (dict_filter (fun n => py_in n used) defs)) <->
  In name used /\ In name (dict_keys defs).
Proof.
  rewrite <- !dict_get_keys, dict_get_filter, <- py_in_In.
  destruct (py_in name used); split; intros H; try tauto; try (destruct H; congruence).
Qed.

Lemma query_keys_length (defs : dict sensor_def) (names keys : list string) :
  query_keys defs names = Return keys -> List.length keys = List.length names.
Proof.
  revert keys. induction names as [|name names IH]; intros keys; simpl.
  - now intros [= <-].
  - destruct (getitem defs name) as [[[key unit] f]|]; [|discriminate]. simpl.
    destruct (query_keys defs names) as [rest|]; [|discriminate]. simpl.
    intros [= <-]. simpl. now rewrite (IH rest).
Qed.

Lemma SMAsensor_init_fields (name : string) (attr : list string)
  (defs : dict sensor_def) (sensor : SMAsensor) :
  SMAsensor_init name attr defs = Return sensor ->
  _name sensor = name /\ _sensor_defs sensor = defs /\ _state sensor = None /\
  (forall key, In key (dict_keys (_attr sensor)) <-> In key attr) /\
  exists f, dict_get name defs = Some (_key sensor, _unit_of_measurement sensor, f).
Proof.
  unfold SMAsensor_init, getitem.
  destruct (dict_get name defs) as [[[key unit] f]|]; [|discriminate].
  cbn [bind]. intros [= <-].
  cbn [_name _sensor_defs _state _attr _key _unit_of_measurement].
  split; [reflexivity|]. split; [reflexivity|]. split; [reflexivity|].
  split; [|now exists f].
  intros att. rewrite dict_of_keys, map_map. cbn [fst]. now rewrite map_id.
Qed.

Lemma valid_names_defined (pysma : pysma_module) (config : config) (name : string) :
  _check_sensor_schema config = Return config ->
  In name (configured_names (conf_sensors config)) ->
  In name (dict_keys (fst (fold_left add_custom (conf_custom config)
                                     (builtin_defs pysma, [])))).
Proof.
  intros Hvalid Hin. apply all_defs_keys.
  destruct (proj1 (check_sensor_schema_ok config) Hvalid name Hin) as [H|H]; auto.
Qed.

Lemma configured_names_sensor (items : dict (list string)) (name : string)
  (attr : list string) :
  In (name, attr) items ->
  In name (configured_names items) /\
  forall key, In key attr -> In key (configured_names items).
Proof.
  intros Hin. unfold configured_names. split.
  - apply in_flat_map. exists (name, attr). split; [exact Hin | now left].
  - intros key Hkey. apply in_flat_map. exists (name, attr).
    split; [exact Hin | now right].
Qed.

(** A validated configuration is set up without an exception. *)
Lemma setup_returns (pysma : pysma_module) (config : config) :
  _check_sensor_schema config = Return config ->
  exists p, async_setup_platform pysma config = Return p.
Proof.
  intros Hvalid. unfold async_setup_platform.
  pose proof (valid_names_defined pysma config) as Hdef.
  destruct (fold_left add_custom (conf_custom config) (builtin_defs pysma, []))
    as [all_defs warned]. simpl in Hdef.
  pose proof (make_entities_spec all_defs (conf_sensors config) [] []) as Hmk.
  destruct (make_entities all_defs (conf_sensors config) [] []) as [[sensors used]|e].
  - cbn [bind].
    destruct (query_keys_spec
                (dict_filter (fun name => py_in name used) all_defs)
                (dict_keys (dict_filter (fun name => py_in name used) all_defs)))
      as [keys [Hq _]]; [auto|].
    rewrite Hq. cbn [bind]. eauto.
  - exfalso. destruct Hmk as [name [_ [Hin Hnone]]].
    assert (Hk : In name (dict_keys all_defs)).
    { apply Hdef; [exact Hvalid|]. unfold dict_keys in Hin. apply in_map_iff in Hin.
      destruct Hin as [[n attr] [Heq Hin]]. simpl in Heq. subst n.
      exact (proj1 (configured_names_sensor _ _ _ Hin)). }
    apply dict_get_keys in Hk. congruence.
Qed.

Lemma Forall2_right_In {A B : Type} (R : A -> B -> Prop) (l : list A) (l' : list B) (b : B) :
  Forall2 R l l' -> In b l' -> exists a, In a l /\ R a b.
Proof.
  induction 1 as [|a b' l l' Hab _ IH]; simpl; [intros []|].
  intros [<-|Hin]; [exists a; auto|].
  destruct (IH Hin) as [a' [Ha' HR]]. exists a'. auto.
Qed.

(** The platform set up from a validated configuration is well formed. *)
Lemma setup_well_formed (pysma : pysma_module) (config : config) (p : platform) :
  _check_sensor_schema config = Return config ->
  async_setup_platform pysma config = Return p ->
  well_formed p.
Proof.
  intros Hvalid Hsetup.
  destruct (setup_spec _ _ _ Hsetup) as [Hdefs [Hnames [Hkeys [_ [_ Hsensors]]]]].
  unfold well_formed. split; [exact Hnames|].
  split.
  { rewrite Hnames, Hdefs. apply dict_filter_NoDup, all_defs_NoDup, dict_of_NoDup. }
  split; [now apply query_keys_length in Hkeys|].
  apply Forall_forall. intros sensor Hin.
  destruct (Forall2_right_In _ _ _ _ Hsensors Hin) as [[name attr] [Hitem Hinit]].
  simpl in Hinit.
  destruct (SMAsensor_init_fields _ _ _ _ Hinit) as [Hn [Hd [_ [Hattr _]]]].
  destruct (configured_names_sensor _ _ _ Hitem) as [Hname Hattrs].
  rewrite Hnames, Hdefs, Hn, Hd. split.
  - apply pruned_keys. split; [exact Hname|].
    now apply valid_names_defined.
  - intros key Hkey. apply Hattr in Hkey. apply Hattrs in Hkey.
    pose proof (valid_names_defined pysma config key Hvalid Hkey) as Hdefd.
    split; [apply pruned_keys; now split | exact Hdefd].
Qed.

(** A call of [async_update_values] never changes the name, the table or
    the attribute keys of the sensor, whether it returns or raises. *)
Lemma async_update_values_static (self : SMAsensor) (key_values : dict Z) :
  _name (fst (async_update_values self key_values)) = _name self /\
  _sensor_defs (fst (async_update_values self key_values)) = _sensor_defs self /\
  dict_keys (_attr (fst (async_update_values self key_values))) = dict_keys (_attr self).
Proof.
  unfold async_update_values.
  pose proof (update_attrs_keys key_values (_sensor_defs self) (_attr self) false) as Hkeys.
  destruct (update_attrs key_values (_sensor_defs self) (_attr self) false)
    as [[attr update] e]. simpl in Hkeys.
  destruct e as [e|]; [simpl; auto|].
  simpl. destruct (dict_get (_name self) key_values) as [v|]; [|simpl; auto].
  destruct (state_ne v (_state self)); simpl; auto.
Qed.

Lemma update_sensors_static (res : dict Z) (sensors : list SMAsensor) (tasks : list string) :
  Forall2 (fun sensor sensor' =>
             _name sensor' = _name sensor /\
             _sensor_defs sensor' = _sensor_defs sensor /\
             dict_keys (_attr sensor') = dict_keys (_attr sensor))
          sensors (fst (update_sensors res sensors tasks)).
Proof.
  revert tasks. induction sensors as [|sensor rest IH]; intros tasks; simpl;
    [constructor|].
  pose proof (async_update_values_static sensor res) as Hs.
  destruct (async_update_values sensor res) as [sensor' [task|e]]; simpl in Hs.
  - specialize (IH (if task then (tasks ++ [_name sensor])%list else tasks)).
    destruct (update_sensors res rest _) as [rest' r]. simpl in *.
    now constructor.
  - simpl. constructor; [exact Hs|].
    clear. induction rest; constructor; auto.
Qed.

Lemma async_sma_well_formed (p : platform) (reply : option (list (option Z))) :
  well_formed p -> well_formed (fst (async_sma p reply)).
Proof.
  intros Hwf. unfold async_sma.
  destruct (1 <? backoff p); [exact Hwf|].
  destruct reply as [values|]; [|exact Hwf].
  destruct (effective_values p values) as [res|e]; [|exact Hwf].
  pose proof (update_sensors_static res (hass_sensors p) []) as Hstatic.
  destruct (update_sensors res (hass_sensors p) []) as [sensors r]. simpl in *.
  destruct Hwf as [Hnames [Hnd [Hlen Hall]]].
  unfold well_formed. simpl. repeat split; auto.
  clear - Hall Hstatic. induction Hstatic as [|s s' l l' [Hn [Hd Hk]] _ IH];
    [constructor|].
  inversion Hall as [|? ? Hs Hrest]; subst.
  constructor; [|now apply IH].
  rewrite Hn, Hd, Hk. exact Hs.
Qed.

Lemma run_well_formed (p : platform) (replies : list (option (list (option Z)))) :
  well_formed p -> well_formed (fst (run p replies)).
Proof.
  revert p. induction replies as [|reply replies IH]; intros p Hwf; [exact Hwf|].
  rewrite run_cons. simpl. now apply IH, async_sma_well_formed.
Qed.

(** ** The updates of one run *)




(** After a loop over the sensors that ends without an exception, every
    sensor shows the mapping. *)
Lemma update_sensors_shows (res : dict Z) (sensors sensors' : list SMAsensor)
  (tasks tasks' : list string) :
  update_sensors res sensors tasks = (sensors', Return tasks') ->
  Forall (shows res) sensors'.
Proof.
  revert sensors' tasks tasks'.
  induction sensors as [|sensor rest IH]; intros sensors' tasks tasks'; simpl.
  - intros [= <- _]. constructor.
  - destruct (async_update_values sensor res) as [sensor1 [changed|e]] eqn:Hcall;
      [|discriminate].
    destruct (update_sensors res rest _) as [rest' r] eqn:Hrest.
    intros [= <- ->]. constructor.
    + now destruct (async_update_values_result _ _ _ _ Hcall) as [Hshows _].
    + eapply IH. exact Hrest.
Qed.




(** A run of the handler that polled, got a list, and raised nothing. *)
Lemma async_sma_success (p p' : platform) (o : observation)
  (values : list (option Z)) (res : dict Z) :
  async_sma p (Some values) = (p', o) ->
  polled o = true -> raised o = None ->
  effective_values p values = Return res ->
  backoff p <= 1 /\
  update_sensors res (hass_sensors p) [] = (hass_sensors p', Return (notified o)) /\
  p' = set_sensors p (hass_sensors p').
Proof.
  unfold async_sma. destruct (Z.ltb_spec 1 (backoff p)) as [Hgt|Hle].
  - intros [= <- <-]. discriminate.
  - intros Hrun Hpolled Hraised Hres. rewrite Hres in Hrun.
    destruct (update_sensors res (hass_sensors p) []) as [sensors [tasks|e]];
      injection Hrun as <- <-; simpl in *; [|discriminate].
    auto.
Qed.



Example unaffected_sensor_kept :
  let p1 := fst (async_sma sample_platform (Some [Some 5; Some 123456])) in
  notified (snd (async_sma p1 (Some [Some 5; Some 200000]))) = ["total_yield"] /\
  nth_error (hass_sensors (fst (async_sma p1 (Some [Some 5; Some 200000])))) 1
  = nth_error (hass_sensors p1) 1.
Proof. split; reflexivity. Qed.

(** ** Lookups *)





(** ** The values shown *)

(** A run that polled and raised nothing computed a mapping, and leaves
    every sensor showing it. *)
Lemma async_sma_shows (p p' : platform) (o : observation) (values : list (option Z)) :
  async_sma p (Some values) = (p', o) ->
  polled o = true -> raised o = None ->
  exists res, effective_values p values = Return res /\
              Forall (shows res) (hass_sensors p').
Proof.
  intros Hrun Hpolled Hraised.
  destruct (effective_values p values) as [res|e] eqn:Hres.
  - exists res. split; [reflexivity|].
    destruct (async_sma_success _ _ _ _ _ Hrun Hpolled Hraised Hres) as [_ [Hupd _]].
    eapply update_sensors_shows. exact Hupd.
  - exfalso. unfold async_sma in Hrun. rewrite Hres in Hrun.
    destruct (1 <? backoff p); injection Hrun as <- <-; discriminate.
Qed.

Lemma shows_state (res : dict Z) (sensor : SMAsensor) (q : Z) :
  shows res sensor -> dict_get (_name sensor) res = Some q -> _state sensor = Some q.
Proof. intros [[v [Hv Hstate]] _] Hq. congruence. Qed.

Lemma nonzero_factors_return (p : platform) (values : list (option Z)) :
  well_formed p ->
  (forall n key unit f, dict_get n (sensor_defs p) = Some (key, unit, f) -> f <> 0) ->
  exists res, effective_values p values = Return res.
Proof.
  intros Hwf Hnz.
  destruct (effective_values_spec p values Hwf)
    as [[res [Hres _]]|[_ [n [key [unit Hz]]]]]; [eauto|].
  exfalso. now apply (Hnz _ _ _ _ Hz).
Qed.




Lemma zero_if_none_some (values : list (option Z)) :
  zero_if_none (map (fun val => Some match val with None => 0 | Some v => v end) values)
  = zero_if_none values.
Proof.
  unfold zero_if_none. rewrite map_map. apply map_ext. now intros [v|].
Qed.

(** C4.  On a platform set up from a validated configuration, for a name
    whose reply value is [None], the value that enters the division is
    0, the mapping passed to the sensors holds 0 for the name, and a run
    that polled and raised nothing leaves 0 as the state of the sensor
    of that name.  The run is the one the handler makes when the device
    reports 0 in place of every [None], so a missing value opens no
    error path; the mapping is computed whenever no factor is zero. *)
Theorem missing_value_is_zero (pysma : pysma_module) (config : config)
  (p0 : platform) (replies : list (option (list (option Z))))
  (values : list (option Z)) (name : string) :
  _check_sensor_schema config = Return config ->
  async_setup_platform pysma config = Return p0 ->
  let p := fst (run p0 replies) in
  In (name, None) (combine (names_to_query p) values) ->
  In (name, 0) (combine (names_to_query p) (zero_if_none values)) /\
  (forall res, effective_values p values = Return res ->
               dict_get name res = Some 0) /\
  (forall p' o, async_sma p (Some values) = (p', o) ->
     polled o = true -> raised o = None ->
     forall sensor, In sensor (hass_sensors p') -> _name sensor = name ->
                    _state sensor = Some 0) /\
  async_sma p (Some values)
  = async_sma p (Some (map (fun val => Some match val with None => 0 | Some v => v end)
                           values)) /\
  ((forall n key unit f, dict_get n (sensor_defs p) = Some (key, unit, f) -> f <> 0) ->
   exists res, effective_values p values = Return res).
Proof.
  intros Hvalid Hsetup p Hin.
  assert (Hwf : well_formed p)
    by (apply run_well_formed; eapply setup_well_formed; eauto).
  assert (Hmap : forall res, effective_values p values = Return res ->
                             dict_get name res = Some 0).
  { intros res Hres.
    destruct (effective_values_spec p values Hwf) as [[res' [Hres' [_ Hall]]]|[Herr _]];
      [|congruence].
    rewrite Hres in Hres'. injection Hres' as <-.
    destruct (Hall _ _ Hin) as [key [unit [f [_ [Hf Hget]]]]].
    now rewrite Z.div_0_l in Hget by exact Hf. }
  split; [exact (combine_zero_if_none _ _ _ _ Hin)|].
  split; [exact Hmap|].
  split.
  { intros p' o Hrun Hpolled Hraised sensor Hs Hname.
    destruct (async_sma_shows _ _ _ _ Hrun Hpolled Hraised) as [res [Hres Hshows]].
    rewrite Forall_forall in Hshows.
    apply (shows_state res); [now apply Hshows|].
    rewrite Hname. now apply Hmap. }
  split; [|now apply nonzero_factors_return].
  unfold async_sma, effective_values. now rewrite zero_if_none_some.
Qed.

Lemma missing_value_is_zero_witness :
  _check_sensor_schema sample_config = Return sample_config /\
  async_setup_platform sample_pysma sample_config = Return sample_platform /\
  In ("current_power", None)
     (combine (names_to_query (fst (run sample_platform [None]))) [None; Some 123456]) /\
  forall res,
    effective_values (fst (run sample_platform [None])) [None; Some 123456] = Return res ->
    dict_get "current_power" res = Some 0.
Proof.
  split; [reflexivity|]. split; [reflexivity|]. split; [left; reflexivity|].
  exact (proj1 (proj2 (missing_value_is_zero sample_pysma sample_config sample_platform
                         [None] [None; Some 123456] "current_power" eq_refl eq_refl
                         (or_introl eq_refl)))).
Defined.

(** ** Runs on concrete inputs *)

Example unknown_attribute_rejected :
  _check_sensor_schema {| conf_sensors := [("total_yield", ["current_power"; "voltage"])];
                          conf_custom := [] |}
  = Raise (Invalid "voltage does not exist [total_yield]").
Proof. reflexivity. Qed.

Example unknown_sensor_rejected :
  load_platform sample_pysma
    {| raw_sensors := [("voltage", [])]; raw_customs := [] |}
  = Raise (Invalid "voltage does not exist").
Proof. reflexivity. Qed.

Example custom_key_lengths :
  CUSTOM_SCHEMA {| raw_key := Some "6380_40251E0"; raw_unit := Some "V";
                   raw_factor := None; raw_extra := [] |}
  = Raise (Invalid "length of value must be at least 13") /\
  CUSTOM_SCHEMA {| raw_key := Some "6380_40251E000"; raw_unit := Some "V";
                   raw_factor := None; raw_extra := [] |}
  = Raise (Invalid "length of value must be at most 13") /\
  CUSTOM_SCHEMA {| raw_key := Some "6380_40251E00"; raw_unit := Some "V";
                   raw_factor := None; raw_extra := [] |}
  = Return {| prop_key := "6380_40251E00"; prop_unit := "V"; prop_factor := 1 |}.
Proof. repeat split. Qed.

Example custom_replaces_builtin :
  match async_setup_platform sample_pysma
          {| conf_sensors := [("total_yield", ["pv_voltage"])];
             conf_custom :=
               [("pv_voltage", {| prop_key := "6380_40251E00"; prop_unit := "V";
                                  prop_factor := 100 |});
                ("total_yield", {| prop_key := "6400_00260100"; prop_unit := "Wh";
                                   prop_factor := 1 |});
                ("unused", {| prop_key := "6100_00000000"; prop_unit := "A";
                              prop_factor := 1 |})] |} with
  | Return p =>
      sensor_defs p = [("total_yield", ("6400_00260100", "Wh", 1));
                       ("pv_voltage", ("6380_40251E00", "V", 100))] /\
      warnings p = ["total_yield"] /\
      keys_to_query p = ["6400_00260100"; "6380_40251E00"]
  | Raise _ => False
  end.
Proof. repeat split. Qed.

Example backoff_trace :
  map polled (snd (run sample_platform
                       [Some [Some 1; Some 2]; None; None; None; None;
                        Some [Some 1; Some 2]; Some [Some 1; Some 2]]))
  = [true; true; false; false; true; false; false] /\
  backoff (fst (run sample_platform
                    [Some [Some 1; Some 2]; None; None; None; None;
                     Some [Some 1; Some 2]; Some [Some 1; Some 2]])) = 1.
Proof. split; reflexivity. Qed.

Example zero_factor_raises :
  match async_setup_platform sample_pysma
          {| conf_sensors := [("pv_voltage", [])];
             conf_custom :=
               [("pv_voltage", {| prop_key := "6380_40251E00"; prop_unit := "V";
                                  prop_factor := 0 |})] |} with
  | Return p => raised (snd (async_sma p (Some [Some 230]))) = Some ZeroDivisionError
  | Raise _ => False
  end.
Proof. reflexivity. Qed.

(** * Further properties of the module *)

(** ** Loading and setup *)


(** X1.  Loading a raw configuration either returns a platform or raises
    [vol.Invalid]: once [PLATFORM_SCHEMA] has accepted a configuration,
    the setup raises nothing, in particular no [KeyError] from the
    constructor of a sensor. *)
Theorem load_platform_raises_only_invalid (pysma : pysma_module) (raw : raw_config) :
  ((exists p, load_platform pysma raw = Return p) \/
   (exists msg, load_platform pysma raw = Raise (Invalid msg))) /\
  (forall config, PLATFORM_SCHEMA raw = Return config ->
     conf_sensors config = raw_sensors raw /\
     dict_keys (conf_custom config) = dict_keys (raw_customs raw) /\
     exists p, async_setup_platform pysma config = Return p /\
               load_platform pysma raw = Return p).
Proof.
  unfold load_platform, PLATFORM_SCHEMA.
  destruct (validate_customs_shape (raw_customs raw)) as [[customs [Hv Hkeys]]|[msg Hv]];
    rewrite Hv; cbn [bind].
  - destruct (check_sensor_schema_shape
                {| conf_sensors := raw_sensors raw; conf_custom := customs |})
      as [Hok|[msg Herr]].
    + destruct (setup_returns pysma _ Hok) as [p Hp].
      rewrite Hok. cbn [bind]. split; [left; eauto|].
      intros config [= <-]. simpl. repeat split; auto. exists p. auto.
    + rewrite Herr. cbn [bind]. split; [right; eauto | discriminate].
  - split; [right; eauto | discriminate].
Qed.





Example undefined_attribute_passes_setup :
  exists p,
    async_setup_platform sample_pysma
      {| conf_sensors := [("total_yield", ["voltage"])]; conf_custom := [] |} = Return p /\
    names_to_query p = ["total_yield"] /\
    raised (snd (async_sma p (Some [Some 123456]))) = Some (KeyError "voltage").
Proof. eexists. repeat split. Qed.

Lemma dict_set_In {V : Type} (k k' : string) (v v' : V) (d : dict V) :
  In (k', v') (dict_set k v d) -> (k', v') = (k, v) \/ In (k', v') d.
Proof.
  induction d as [|[k0 v0] d IH]; simpl.
  - intros [[= <- <-]|[]]. now left.
  - destruct (String.eqb_spec k k0) as [->|Hne]; simpl.
    + intros [[= <- <-]|Hin]; [now left | right; now right].
    + intros [Heq|Hin]; [right; now left|].
      destruct (IH Hin) as [H|H]; [now left | right; now right].
Qed.

Lemma fold_set_In {V : Type} (l : list (string * V)) (d : dict V) (k : string) (v : V) :
  In (k, v) (fold_left set_item l d) -> In (k, v) d \/ In (k, v) l.
Proof.
  revert d. induction l as [|[k0 v0] l IH]; intros d; simpl; [now left|].
  intros Hin. destruct (IH _ Hin) as [H|H]; [|right; now right].
  unfold set_item in H. simpl in H.
  destruct (dict_set_In _ _ _ _ _ H) as [Heq|H']; [right; now left | now left].
Qed.

(** The sensors that a returning setup has built, field by field. *)
Lemma setup_sensor_fields (pysma : pysma_module) (config : config) (p : platform) :
  async_setup_platform pysma config = Return p ->
  map _name (hass_sensors p) = dict_keys (conf_sensors config) /\
  Forall2 (fun item sensor =>
             _name sensor = fst item /\
             _state sensor = None /\
             NoDup (dict_keys (_attr sensor)) /\
             (forall key, In key (dict_keys (_attr sensor)) <-> In key (snd item)) /\
             (forall key val, In (key, val) (_attr sensor) -> val = "") /\
             exists f, dict_get (fst item) (_sensor_defs sensor)
                       = Some (_key sensor, _unit_of_measurement sensor, f))
          (conf_sensors config) (hass_sensors p).
Proof.
  intros Hsetup.
  destruct (setup_spec _ _ _ Hsetup) as [_ [_ [_ [_ [_ Hsensors]]]]].
  assert (Hfields :
    Forall2 (fun item sensor =>
               _name sensor = fst item /\
               _state sensor = None /\
               NoDup (dict_keys (_attr sensor)) /\
               (forall key, In key (dict_keys (_attr sensor)) <-> In key (snd item)) /\
               (forall key val, In (key, val) (_attr sensor) -> val = "") /\
               exists f, dict_get (fst item) (_sensor_defs sensor)
                         = Some (_key sensor, _unit_of_measurement sensor, f))
            (conf_sensors config) (hass_sensors p)).
  { eapply Forall2_impl; [|exact Hsensors]. intros [name attr] sensor Hinit. simpl in *.
    destruct (SMAsensor_init_fields _ _ _ _ Hinit) as [Hn [Hd [Hs [Hattr [f Hget]]]]].
    split; [exact Hn|]. split; [exact Hs|].
    assert (Hattr_eq : _attr sensor = dict_of (map (fun att => (att, "")) attr)).
    { unfold SMAsensor_init in Hinit.
      destruct (getitem _ name) as [[[k u] f']|]; [|discriminate].
      simpl in Hinit. now injection Hinit as <-. }
    split; [rewrite Hattr_eq; apply dict_of_NoDup|].
    split; [exact Hattr|].
    split; [|exists f; now rewrite Hd].
    intros key val Hin. rewrite Hattr_eq in Hin. unfold dict_of in Hin.
    apply fold_set_In in Hin. destruct Hin as [[]|Hin].
    apply in_map_iff in Hin. destruct Hin as [att [[= _ <-] _]]. reflexivity. }
  split; [|exact Hfields].
  clear - Hfields. unfold dict_keys.
  induction Hfields as [|item sensor l l' [Hn _] _ IH]; simpl; [reflexivity|].
  now rewrite Hn, IH.
Qed.

(** X4.  The setup builds one sensor per entry of the configured
    sensors, in their order and under their names; each starts without
    a state, with one attribute per distinct configured attribute name,
    all of them empty strings, and with the device key and the unit
    that the definition table of the sensor gives for its name. *)
Theorem setup_builds_sensors (pysma : pysma_module) (config : config) (p : platform) :
  async_setup_platform pysma config = Return p ->
  map _name (hass_sensors p) = dict_keys (conf_sensors config) /\
  Forall2 (fun item sensor =>
             _name sensor = fst item /\
             _state sensor = None /\
             NoDup (dict_keys (_attr sensor)) /\
             (forall key, In key (dict_keys (_attr sensor)) <-> In key (snd item)) /\
             (forall key val, In (key, val) (_attr sensor) -> val = "") /\
             exists f, dict_get (fst item) (_sensor_defs sensor)
                       = Some (_key sensor, _unit_of_measurement sensor, f))
          (conf_sensors config) (hass_sensors p).
Proof. exact (setup_sensor_fields pysma config p). Qed.

Lemma setup_builds_sensors_witness :
  async_setup_platform sample_pysma sample_config = Return sample_platform /\
  map _name (hass_sensors sample_platform) = dict_keys (conf_sensors sample_config).
Proof.
  split; [reflexivity|].
  exact (proj1 (setup_builds_sensors sample_pysma sample_config sample_platform eq_refl)).
Defined.

(** ** What the handler keeps *)

Lemma async_update_values_identity (self : SMAsensor) (key_values : dict Z) :
  _name (fst (async_update_values self key_values)) = _name self /\
  _key (fst (async_update_values self key_values)) = _key self /\
  _unit_of_measurement (fst (async_update_values self key_values))
  = _unit_of_measurement self /\
  _sensor_defs (fst (async_update_values self key_values)) = _sensor_defs self /\
  dict_keys (_attr (fst (async_update_values self key_values))) = dict_keys (_attr self).
Proof.
  unfold async_update_values.
  pose proof (update_attrs_keys key_values (_sensor_defs self) (_attr self) false) as Hkeys.
  destruct (update_attrs key_values (_sensor_defs self) (_attr self) false)
    as [[attr update] e]. simpl in Hkeys.
  destruct e as [e|]; [simpl; auto|].
  simpl. destruct (dict_get (_name self) key_values) as [v|]; [|simpl; auto].
  destruct (state_ne v (_state self)); simpl; auto.
Qed.

(** Two sensors are the same entity: same name, device key, unit,
    table and attribute names. *)
Lemma same_entity_refl (sensors : list SMAsensor) :
  Forall2 (fun sensor sensor' =>
             _name sensor' = _name sensor /\ _key sensor' = _key sensor /\
             _unit_of_measurement sensor' = _unit_of_measurement sensor /\
             _sensor_defs sensor' = _sensor_defs sensor /\
             dict_keys (_attr sensor') = dict_keys (_attr sensor)) sensors sensors.
Proof. induction sensors; constructor; auto. Qed.

Lemma update_sensors_identity (res : dict Z) (sensors : list SMAsensor)
  (tasks : list string) :
  Forall2 (fun sensor sensor' =>
             _name sensor' = _name sensor /\ _key sensor' = _key sensor /\
             _unit_of_measurement sensor' = _unit_of_measurement sensor /\
             _sensor_defs sensor' = _sensor_defs sensor /\
             dict_keys (_attr sensor') = dict_keys (_attr sensor))
          sensors (fst (update_sensors res sensors tasks)).
Proof.
  revert tasks. induction sensors as [|sensor rest IH]; intros tasks; simpl;
    [constructor|].
  pose proof (async_update_values_identity sensor res) as Hs.
  destruct (async_update_values sensor res) as [sensor' [task|e]]; simpl in Hs.
  - specialize (IH (if task then (tasks ++ [_name sensor])%list else tasks)).
    destruct (update_sensors res rest _) as [rest' r]. simpl in *.
    now constructor.
  - simpl. constructor; [exact Hs | apply same_entity_refl].
Qed.

Lemma async_sma_identity (p : platform) (reply : option (list (option Z))) :
  sensor_defs (fst (async_sma p reply)) = sensor_defs p /\
  names_to_query (fst (async_sma p reply)) = names_to_query p /\
  keys_to_query (fst (async_sma p reply)) = keys_to_query p /\
  warnings (fst (async_sma p reply)) = warnings p /\
  Forall2 (fun sensor sensor' =>
             _name sensor' = _name sensor /\ _key sensor' = _key sensor /\
             _unit_of_measurement sensor' = _unit_of_measurement sensor /\
             _sensor_defs sensor' = _sensor_defs sensor /\
             dict_keys (_attr sensor') = dict_keys (_attr sensor))
          (hass_sensors p) (hass_sensors (fst (async_sma p reply))).
Proof.
  unfold async_sma.
  destruct (1 <? backoff p); [simpl; repeat split; apply same_entity_refl|].
  destruct reply as [values|]; [|simpl; repeat split; apply same_entity_refl].
  destruct (effective_values p values) as [res|e];
    [|simpl; repeat split; apply same_entity_refl].
  pose proof (update_sensors_identity res (hass_sensors p) []) as Hid.
  destruct (update_sensors res (hass_sensors p) []) as [sensors r]. simpl in *.
  repeat split. exact Hid.
Qed.

(** What a sequence of runs leaves in place. *)
Lemma run_identity (p : platform) (replies : list (option (list (option Z)))) :
  sensor_defs (fst (run p replies)) = sensor_defs p /\
  names_to_query (fst (run p replies)) = names_to_query p /\
  keys_to_query (fst (run p replies)) = keys_to_query p /\
  warnings (fst (run p replies)) = warnings p /\
  Forall2 (fun sensor sensor' =>
             _name sensor' = _name sensor /\ _key sensor' = _key sensor /\
             _unit_of_measurement sensor' = _unit_of_measurement sensor /\
             _sensor_defs sensor' = _sensor_defs sensor /\
             dict_keys (_attr sensor') = dict_keys (_attr sensor))
          (hass_sensors p) (hass_sensors (fst (run p replies))).
Proof.
  revert p. induction replies as [|reply replies IH]; intros p.
  - simpl. repeat split. apply same_entity_refl.
  - rewrite run_cons. cbn [fst].
    destruct (async_sma_identity p reply) as [H1 [H2 [H3 [H4 H5]]]].
    destruct (IH (fst (async_sma p reply))) as [G1 [G2 [G3 [G4 G5]]]].
    split; [congruence|]. split; [congruence|]. split; [congruence|].
    split; [congruence|].
    clear - H5 G5. revert G5.
    generalize (hass_sensors (fst (run (fst (async_sma p reply)) replies))) as final.
    induction H5 as [|s s' l l' Hs _ IHl]; intros final G5;
      inversion G5 as [|? s'' ? l'' Hs' Hrest]; subst; constructor.
    + destruct Hs as [? [? [? [? ?]]]], Hs' as [? [? [? [? ?]]]].
      repeat split; congruence.
    + now apply IHl.
Qed.

(** X5.  No sequence of runs of the handler, whatever the replies and
    whether runs raise or not, changes the definition table, the names
    and keys queried, or the number, order, names, device keys, units,
    tables and attribute names of the sensors: only the counter, the
    states and the attribute strings move. *)
Theorem run_keeps_identity (p : platform) (replies : list (option (list (option Z)))) :
  sensor_defs (fst (run p replies)) = sensor_defs p /\
  names_to_query (fst (run p replies)) = names_to_query p /\
  keys_to_query (fst (run p replies)) = keys_to_query p /\
  warnings (fst (run p replies)) = warnings p /\
  Forall2 (fun sensor sensor' =>
             _name sensor' = _name sensor /\ _key sensor' = _key sensor /\
             _unit_of_measurement sensor' = _unit_of_measurement sensor /\
             _sensor_defs sensor' = _sensor_defs sensor /\
             dict_keys (_attr sensor') = dict_keys (_attr sensor))
          (hass_sensors p) (hass_sensors (fst (run p replies))).
Proof. exact (run_identity p replies). Qed.

(** X6.  After a setup that returns and any runs of the handler, every
    definition of the pruned table, by which the handler divides, is
    the definition that each sensor finds under the same name in its own
    table, from which it takes the unit of an attribute string. *)
Theorem tables_agree (pysma : pysma_module) (config : config) (p0 : platform)
  (replies : list (option (list (option Z)))) (name : string) (def : sensor_def)
  (sensor : SMAsensor) :
  async_setup_platform pysma config = Return p0 ->
  dict_get name (sensor_defs (fst (run p0 replies))) = Some def ->
  In sensor (hass_sensors (fst (run p0 replies))) ->
  dict_get name (_sensor_defs sensor) = Some def.
Proof.
  intros Hsetup Hget Hin.
  destruct (setup_spec _ _ _ Hsetup) as [Hdefs [_ [_ [_ [_ Hsensors]]]]].
  destruct (run_identity p0 replies) as [Hd [_ [_ [_ Hid]]]].
  rewrite Hd, Hdefs, dict_get_filter in Hget.
  destruct (py_in name _); [|discriminate].
  destruct (Forall2_right_In _ _ _ _ Hid Hin) as [sensor0 [Hin0 [_ [_ [_ [Hsd _]]]]]].
  destruct (Forall2_right_In _ _ _ _ Hsensors Hin0) as [item [_ Hinit]].
  destruct (SMAsensor_init_fields _ _ _ _ Hinit) as [_ [Hd0 _]].
  now rewrite Hsd, Hd0.
Qed.

Lemma tables_agree_witness :
  dict_get "total_yield" (_sensor_defs sample_sensor) = Some ("6400_00260100", "kWh", 1000).
Proof.
  apply (tables_agree sample_pysma sample_config sample_platform [] "total_yield"
           ("6400_00260100", "kWh", 1000) sample_sensor eq_refl eq_refl).
  left. reflexivity.
Defined.

(** ** Notifications *)









Example raising_run_changes_without_notifying :
  raised (snd (async_sma sample_platform (Some [Some 5]))) = Some (KeyError "total_yield") /\
  notified (snd (async_sma sample_platform (Some [Some 5]))) = [] /\
  map _attr (hass_sensors (fst (async_sma sample_platform (Some [Some 5]))))
  = [[("current_power", "5 W")]; []].
Proof. repeat split. Qed.





(** ** Display strings *)

Lemma str_int_inj (a b : Z) : str_int a = str_int b -> a = b.
Proof.
  unfold str_int. intros H.
  apply (f_equal NilEmpty.int_of_string) in H. rewrite !NilEmpty.isi in H.
  injection H as H. apply (f_equal Z.of_int) in H.
  now rewrite !DecimalZ.of_to in H.
Qed.

Lemma length_append (s t : string) :
  String.length (s ++ t) = (String.length s + String.length t)%nat.
Proof. induction s as [|c s IH]; simpl; [reflexivity | now rewrite IH]. Qed.

Lemma append_inj_r (s1 s2 t : string) : s1 ++ t = s2 ++ t -> s1 = s2.
Proof.
  revert s2. induction s1 as [|c s1 IH]; intros [|c' s2] H; simpl in H.
  - reflexivity.
  - apply (f_equal String.length) in H. simpl in H. rewrite length_append in H. lia.
  - apply (f_equal String.length) in H. simpl in H. rewrite length_append in H. lia.
  - injection H as -> H. now rewrite (IH s2 H).
Qed.

(** The display string of an attribute determines its value: for one
    unit, different values give different strings, and the decimal text
    of an int reads back as that int. *)
Lemma display_string_determines_value (a b : Z) (unit : string) :
  (format2 a unit = format2 b unit -> a = b) /\
  option_map Z.of_int (NilEmpty.int_of_string (str_int a)) = Some a.
Proof.
  split.
  - unfold format2. intros H. apply append_inj_r in H. now apply str_int_inj.
  - unfold str_int. rewrite NilEmpty.isi. simpl. now rewrite DecimalZ.of_to.
Qed.

(** An update with another value for a name the sensor refers to returns a task. *)
Lemma update_detects_change (self self' : SMAsensor) (res1 res2 : dict Z)
  (k : string) (changed : bool) :
  shows res1 self -> refers_to k self ->
  dict_get k res2 <> dict_get k res1 ->
  async_update_values self res2 = (self', Return changed) ->
  changed = true.
Proof.
  intros [[v1 [Hv1 Hstate]] Hattr] Hrefers Hdiff Hcall.
  destruct (async_update_values_result _ _ _ _ Hcall) as [_ [_ Hflag]].
  apply Hflag. destruct Hrefers as [Hname|Hin].
  - left. rewrite Hstate, Hname, <- Hv1, Hname. congruence.
  - right. unfold dict_keys in Hin. apply in_map_iff in Hin.
    destruct Hin as [[key val] [Heq Hin]]. simpl in Heq. subst key.
    exists k, val. split; [exact Hin|].
    rewrite Forall_forall in Hattr. specialize (Hattr _ Hin). simpl in Hattr.
    unfold attr_string in *.
    destruct (dict_get k res1) as [w1|]; [|discriminate].
    destruct (dict_get k (_sensor_defs self)) as [[[key unit] f]|]; [|discriminate].
    injection Hattr as <-.
    destruct (dict_get k res2) as [w2|]; [|discriminate].
    intros [= Heq]. apply Hdiff. f_equal.
    now apply (proj1 (display_string_determines_value w2 w1 unit)).
Qed.

(** X10.  A sensor that shows a mapping and is then updated with a
    mapping that has another value, or none, for a name the sensor
    refers to, as its own name or as an attribute, returns a task
    whenever the update returns: no change of a value is missed. *)
Theorem value_change_detected (self self' : SMAsensor) (res1 res2 : dict Z)
  (k : string) (changed : bool) :
  shows res1 self -> refers_to k self ->
  dict_get k res2 <> dict_get k res1 ->
  async_update_values self res2 = (self', Return changed) ->
  changed = true.
Proof. exact (update_detects_change self self' res1 res2 k changed). Qed.

Lemma value_change_detected_witness :
  let self := fst (async_update_values sample_sensor sample_values) in
  let res2 := [("current_power", 6); ("total_yield", 123)] in
  shows sample_values self /\ refers_to "current_power" self /\
  dict_get "current_power" res2 <> dict_get "current_power" sample_values /\
  async_update_values self res2 = (fst (async_update_values self res2), Return true) /\
  true = true.
Proof.
  intros self res2.
  assert (Hshows : shows sample_values self).
  { split; [exists 123; split; reflexivity | repeat constructor]. }
  assert (Hrefers : refers_to "current_power" self) by (right; left; reflexivity).
  assert (Hdiff : dict_get "current_power" res2 <> dict_get "current_power" sample_values)
    by discriminate.
  split; [exact Hshows|]. split; [exact Hrefers|]. split; [exact Hdiff|].
  split; [reflexivity|].
  exact (value_change_detected self _ sample_values res2 "current_power" true
           Hshows Hrefers Hdiff eq_refl).
Defined.

Lemma update_sensors_detects (res1 res2 : dict Z) (k : string)
  (sensors sensors' : list SMAsensor) (tasks tasks' : list string) :
  dict_get k res2 <> dict_get k res1 ->
  Forall (shows res1) sensors ->
  update_sensors res2 sensors tasks = (sensors', Return tasks') ->
  (forall name, In name tasks -> In name tasks') /\
  forall sensor, In sensor sensors -> refers_to k sensor -> In (_name sensor) tasks'.
Proof.
  intros Hdiff. revert sensors' tasks tasks'.
  induction sensors as [|sensor rest IH]; intros sensors' tasks tasks' Hshows; simpl.
  - intros [= _ <-]. split; [auto | intros ? []].
  - inversion Hshows as [|? ? Hs Hrest]; subst.
    destruct (async_update_values sensor res2) as [sensor1 [changed|e]] eqn:Hcall;
      [|discriminate].
    destruct (update_sensors res2 rest _) as [rest' r] eqn:Hupd.
    intros [= _ ->]. destruct (IH _ _ _ Hrest Hupd) as [Hkeep Hall]. split.
    + intros name Hin. apply Hkeep. destruct changed; [|exact Hin].
      apply in_or_app. now left.
    + intros s [<-|Hin] Hrefers; [|now apply Hall].
      rewrite (update_detects_change _ _ _ _ _ _ Hs Hrefers Hdiff Hcall) in Hkeep.
      apply Hkeep. apply in_or_app. right. now left.
Qed.

(** X11.  Take a run of the handler that polled, raised nothing and
    passed the mapping [res1] to the sensors, and the next polling run,
    whose mapping [res2] has another value for the name [k].  When the
    second run raises nothing, it notifies every sensor that refers to
    [k], as its name or as an attribute. *)
Theorem affected_sensors_notified (p0 p1 p2 : platform) (o1 o2 : observation)
  (values1 values2 : list (option Z)) (res1 res2 : dict Z) (k : string) :
  async_sma p0 (Some values1) = (p1, o1) ->
  polled o1 = true -> raised o1 = None ->
  effective_values p0 values1 = Return res1 ->
  async_sma p1 (Some values2) = (p2, o2) ->
  raised o2 = None ->
  effective_values p1 values2 = Return res2 ->
  dict_get k res2 <> dict_get k res1 ->
  forall sensor, In sensor (hass_sensors p1) -> refers_to k sensor ->
                 In (_name sensor) (notified o2).
Proof.
  intros Hrun1 Hpolled1 Hraised1 Hres1 Hrun2 Hraised2 Hres2 Hdiff sensor Hin Hrefers.
  destruct (async_sma_success _ _ _ _ _ Hrun1 Hpolled1 Hraised1 Hres1)
    as [Hle [Hupd1 Hp1]].
  pose proof (update_sensors_shows _ _ _ _ _ Hupd1) as Hshows.
  assert (Hb1 : backoff p1 = backoff p0) by (rewrite Hp1; reflexivity).
  assert (Hpolled2 : polled o2 = true).
  { replace o2 with (snd (async_sma p1 (Some values2))) by now rewrite Hrun2.
    apply polled_iff. lia. }
  destruct (async_sma_success _ _ _ _ _ Hrun2 Hpolled2 Hraised2 Hres2)
    as [_ [Hupd2 _]].
  now apply (proj2 (update_sensors_detects _ _ _ _ _ _ _ Hdiff Hshows Hupd2)).
Qed.

Lemma affected_sensors_notified_witness :
  let p1 := fst (async_sma sample_platform (Some [Some 5; Some 123456])) in
  let sensor := hd sample_sensor (hass_sensors p1) in
  In sensor (hass_sensors p1) /\ refers_to "total_yield" sensor /\
  In (_name sensor) (notified (snd (async_sma p1 (Some [Some 5; Some 200000])))).
Proof.
  intros p1 sensor.
  assert (Hin : In sensor (hass_sensors p1)) by (left; reflexivity).
  assert (Hrefers : refers_to "total_yield" sensor) by (left; reflexivity).
  split; [exact Hin|]. split; [exact Hrefers|].
  apply (affected_sensors_notified sample_platform p1
           (fst (async_sma p1 (Some [Some 5; Some 200000])))
           (snd (async_sma sample_platform (Some [Some 5; Some 123456])))
           (snd (async_sma p1 (Some [Some 5; Some 200000])))
           [Some 5; Some 123456] [Some 5; Some 200000]
           [("current_power", 5); ("total_yield", 123)]
           [("current_power", 5); ("total_yield", 200)] "total_yield");
    try reflexivity; try assumption.
  discriminate.
Defined.

(** ** States *)

Lemma Forall2_compose {A : Type} (R : A -> A -> Prop) (l1 l2 l3 : list A) :
  (forall a b c, R a b -> R b c -> R a c) ->
  Forall2 R l1 l2 -> Forall2 R l2 l3 -> Forall2 R l1 l3.
Proof.
  intros Htrans H12. revert l3.
  induction H12 as [|a b l1 l2 Hab _ IH]; intros l3 H23;
    inversion H23; subst; constructor; eauto.
Qed.

Lemma Forall2_same {A : Type} (R : A -> A -> Prop) (l : list A) :
  (forall a, R a a) -> Forall2 R l l.
Proof. intros Hrefl. induction l; constructor; auto. Qed.

Lemma async_update_values_keeps_state (self : SMAsensor) (key_values : dict Z) :
  _state self <> None -> _state (fst (async_update_values self key_values)) <> None.
Proof.
  intros Hstate. unfold async_update_values.
  destruct (update_attrs key_values (_sensor_defs self) (_attr self) false)
    as [[attr update] [e|]]; [exact Hstate|].
  simpl. destruct (dict_get (_name self) key_values) as [v|]; [|exact Hstate].
  destruct (state_ne v (_state self)); simpl; [discriminate | exact Hstate].
Qed.

Lemma update_sensors_keeps_state (res : dict Z) (sensors : list SMAsensor)
  (tasks : list string) :
  Forall2 (fun sensor sensor' => _state sensor <> None -> _state sensor' <> None)
          sensors (fst (update_sensors res sensors tasks)).
Proof.
  revert tasks. induction sensors as [|sensor rest IH]; intros tasks; simpl;
    [constructor|].
  pose proof (async_update_values_keeps_state sensor res) as Hs.
  destruct (async_update_values sensor res) as [sensor' [task|e]]; simpl in Hs.
  - specialize (IH (if task then (tasks ++ [_name sensor])%list else tasks)).
    destruct (update_sensors res rest _) as [rest' r]. simpl in *.
    now constructor.
  - simpl. constructor; [exact Hs | apply Forall2_same; auto].
Qed.

(** X12.  A sensor that has a state keeps having one: no run of the
    handler, whether it skips, fails, raises or updates, puts the state
    of a sensor back to [None]. *)
Theorem state_never_reset (p : platform) (replies : list (option (list (option Z)))) :
  Forall2 (fun sensor sensor' => _state sensor <> None -> _state sensor' <> None)
          (hass_sensors p) (hass_sensors (fst (run p replies))).
Proof.
  revert p. induction replies as [|reply replies IH]; intros p.
  - apply Forall2_same. auto.
  - rewrite run_cons. cbn [fst].
    apply Forall2_compose with (l2 := hass_sensors (fst (async_sma p reply)));
      [auto | | apply IH].
    unfold async_sma.
    destruct (1 <? backoff p); [apply Forall2_same; auto|].
    destruct reply as [values|]; [|apply Forall2_same; auto].
    destruct (effective_values p values) as [res|e]; [|apply Forall2_same; auto].
    pose proof (update_sensors_keeps_state res (hass_sensors p) []) as H.
    destruct (update_sensors res (hass_sensors p) []) as [sensors r]. exact H.
Qed.

(** ** More on the backoff counter *)

(** X13.  From the platform returned by the setup and after any runs,
    the handler never skips three runs in a row: of any three
    consecutive runs at least one polls, whatever the replies. *)
Theorem at_most_two_skips (pysma : pysma_module) (config : config) (p0 : platform)
  (replies : list (option (list (option Z))))
  (r1 r2 r3 : option (list (option Z))) :
  async_setup_platform pysma config = Return p0 ->
  existsb polled (snd (run (fst (run p0 replies)) [r1; r2; r3])) = true.
Proof.
  intros Hsetup. pose proof (setup_backoff _ _ _ Hsetup) as H0.
  assert (Hrange : 0 <= backoff (fst (run p0 replies)) <= 3)
    by (apply run_backoff_range; lia).
  generalize dependent (fst (run p0 replies)). intros p Hrange.
  rewrite run_cons. cbn [snd existsb].
  destruct (Z_le_gt_dec (backoff p) 1) as [Hle|Hgt].
  { rewrite (proj2 (polled_iff p r1) Hle). reflexivity. }
  rewrite (async_sma_skip p r1) by lia. cbn [fst snd polled orb].
  rewrite run_cons. cbn [snd existsb].
  destruct (Z_le_gt_dec (backoff p - 1) 1) as [Hle2|Hgt2].
  { rewrite (proj2 (polled_iff _ r2)) by (simpl; lia). reflexivity. }
  rewrite (async_sma_skip _ r2) by (simpl; lia). cbn [fst snd polled orb].
  rewrite run_cons. cbn [snd existsb].
  rewrite (proj2 (polled_iff _ r3)) by (simpl; lia). reflexivity.
Qed.

Lemma at_most_two_skips_witness :
  existsb polled (snd (run (fst (run sample_platform [None])) [None; None; None])) = true.
Proof.
  exact (at_most_two_skips sample_pysma sample_config sample_platform [None]
           None None None eq_refl).
Defined.

Lemma failing_device_phase (n : nat) (p : platform) (k : nat) :
  (k = 0%nat /\ backoff p <= 1) \/ (k = 1%nat /\ backoff p = 3) \/
  (k = 2%nat /\ backoff p = 2) ->
  map polled (snd (run p (repeat None n)))
  = map (fun i => ((i + k) mod 3 =? 0)%nat) (seq 0 n).
Proof.
  revert p k. induction n as [|n IH]; intros p k Hk; [reflexivity|].
  cbn [repeat seq map]. rewrite run_cons. cbn [snd map].
  rewrite <- seq_shift, map_map.
  destruct Hk as [[-> Hb]|[[-> Hb]|[-> Hb]]].
  - rewrite (proj2 (polled_iff p None) Hb).
    rewrite (IH _ 1%nat).
    + f_equal. apply map_ext. intros i. f_equal. f_equal. lia.
    + right. left. split; [reflexivity|].
      destruct (async_sma_backoff p None)
        as [[H _]|[[_ [_ [Hb' _]]]|[_ [Hr _]]]]; [lia | exact Hb' | congruence].
  - rewrite (async_sma_skip p None) by lia. cbn [fst snd polled].
    rewrite (IH _ 2%nat) by (right; right; split; [reflexivity | simpl; lia]).
    f_equal. apply map_ext. intros i. f_equal. f_equal. lia.
  - rewrite (async_sma_skip p None) by lia. cbn [fst snd polled].
    rewrite (IH _ 0%nat) by (left; split; [reflexivity | simpl; lia]).
    f_equal. apply map_ext. intros i. f_equal.
    replace (S i + 2)%nat with (i + 0 + 1 * 3)%nat by lia.
    now rewrite Nat.Div0.mod_add.
Qed.

(** X14.  While every read fails, the handler started by the setup
    polls on the first run and then on every third run, and skips the
    two runs in between. *)
Theorem failing_device_polled_every_third (pysma : pysma_module) (config : config)
  (p0 : platform) (n : nat) :
  async_setup_platform pysma config = Return p0 ->
  map polled (snd (run p0 (repeat None n)))
  = map (fun i => (i mod 3 =? 0)%nat) (seq 0 n).
Proof.
  intros Hsetup. pose proof (setup_backoff _ _ _ Hsetup) as H0.
  rewrite (failing_device_phase n p0 0%nat) by (left; split; [reflexivity | lia]).
  apply map_ext. intros i. now rewrite Nat.add_0_r.
Qed.

Lemma failing_device_polled_every_third_witness :
  map polled (snd (run sample_platform (repeat None 7)))
  = [true; false; false; true; false; false; true].
Proof.
  exact (failing_device_polled_every_third sample_pysma sample_config sample_platform
           7 eq_refl).
Defined.

(** ** Replies and exceptions *)

Lemma set_sensors_same (p : platform) : set_sensors p (hass_sensors p) = p.
Proof. now destruct p. Qed.

(** X15.  On a platform set up from a validated configuration, a reply
    that gives a value for a name whose factor is zero makes the polling
    run raise [ZeroDivisionError] before any sensor is touched: the
    platform is left as it was, nobody is notified, and the counter does
    not back off. *)
Theorem zero_factor_raises_before_update (pysma : pysma_module) (config : config)
  (p0 : platform) (replies : list (option (list (option Z))))
  (values : list (option Z)) (name key unit : string) (val : option Z) :
  _check_sensor_schema config = Return config ->
  async_setup_platform pysma config = Return p0 ->
  let p := fst (run p0 replies) in
  backoff p <= 1 ->
  In (name, val) (combine (names_to_query p) values) ->
  dict_get name (sensor_defs p) = Some (key, unit, 0) ->
  async_sma p (Some values)
  = (p, {| polled := true; notified := []; raised := Some ZeroDivisionError |}).
Proof.
  intros Hvalid Hsetup p Hb Hin Hzero.
  assert (Hwf : well_formed p)
    by (apply run_well_formed; eapply setup_well_formed; eauto).
  unfold async_sma. destruct (Z.ltb_spec 1 (backoff p)) as [Hgt|_]; [lia|].
  destruct (effective_values_spec p values Hwf) as [[res [_ [_ Hall]]]|[Herr _]].
  - destruct (Hall _ _ Hin) as [key' [unit' [f [Hget [Hf _]]]]]. congruence.
  - now rewrite Herr.
Qed.

Lemma zero_factor_raises_before_update_witness :
  let config :=
    {| conf_sensors := [("pv_voltage", [])];
       conf_custom := [("pv_voltage", {| prop_key := "6380_40251E00"; prop_unit := "V";
                                         prop_factor := 0 |})] |} in
  exists p0,
    async_setup_platform sample_pysma config = Return p0 /\
    async_sma p0 (Some [Some 230])
    = (p0, {| polled := true; notified := []; raised := Some ZeroDivisionError |}).
Proof.
  intros config. eexists. split; [reflexivity|].
  apply (zero_factor_raises_before_update sample_pysma config _ [] [Some 230]
           "pv_voltage" "6380_40251E00" "V" (Some 230) eq_refl eq_refl).
  - simpl. lia.
  - left. reflexivity.
  - reflexivity.
Defined.

(** X16.  An empty list is not a failed read.  With at least one sensor,
    a polling run on the reply [[]] does not back off; it raises
    [KeyError] for the first lookup of the first sensor, its first
    attribute if it has one and else its name, changes no sensor and
    notifies nobody.  Without sensors it does nothing. *)
Theorem empty_reply_raises_key_error (p : platform) :
  backoff p <= 1 ->
  async_sma p (Some [])
  = (p, {| polled := true; notified := [];
           raised := match hass_sensors p with
                     | [] => None
                     | sensor :: _ =>
                         Some (KeyError match _attr sensor with
                                        | (key, _) :: _ => key
                                        | [] => _name sensor
                                        end)
                     end |}).
Proof.
  intros Hb. unfold async_sma, effective_values.
  destruct (Z.ltb_spec 1 (backoff p)) as [Hgt|_]; [lia|].
  cbn [zero_if_none map]. rewrite combine_nil. cbn.
  destruct (hass_sensors p) as [|sensor rest] eqn:Hs.
  - cbn. rewrite <- Hs. now rewrite set_sensors_same.
  - cbn. unfold async_update_values.
    destruct (_attr sensor) as [|[key val] attr] eqn:Hattr; cbn.
    + rewrite <- Hattr, set_attr_same, <- Hs, set_sensors_same. reflexivity.
    + rewrite <- Hattr, set_attr_same, <- Hs, set_sensors_same. reflexivity.
Qed.

Lemma empty_reply_raises_key_error_witness :
  async_sma sample_platform (Some [])
  = (sample_platform,
     {| polled := true; notified := []; raised := Some (KeyError "current_power") |}).
Proof.
  apply (empty_reply_raises_key_error sample_platform). simpl. lia.
Defined.

Lemma combine_surplus {A B : Type} (l : list A) (l' extra : list B) :
  List.length l' = List.length l -> combine l (l' ++ extra) = combine l l'.
Proof.
  revert l'. induction l as [|a l IH]; intros [|b l'] Hlen; simpl in *;
    try discriminate; [reflexivity|].
  now rewrite IH by lia.
Qed.

(** X17.  Values beyond the number of names queried are ignored: a reply
    with surplus values at its end gives the same run as the reply
    without them. *)
Theorem surplus_values_ignored (p : platform) (values extra : list (option Z)) :
  List.length values = List.length (names_to_query p) ->
  async_sma p (Some (values ++ extra)%list) = async_sma p (Some values).
Proof.
  intros Hlen. unfold async_sma, effective_values, zero_if_none.
  rewrite map_app, combine_surplus; [reflexivity|].
  now rewrite length_map.
Qed.

Lemma surplus_values_ignored_witness :
  async_sma sample_platform (Some [Some 5; Some 123456; None; Some 7])
  = async_sma sample_platform (Some [Some 5; Some 123456]).
Proof.
  exact (surplus_values_ignored sample_platform [Some 5; Some 123456] [None; Some 7]
           eq_refl).
Defined.

Lemma update_attrs_raises_key_error (key_values : dict Z) (defs : dict sensor_def)
  (items : dict string) (update : bool) (e : exn) :
  snd (update_attrs key_values defs items update) = Some e -> exists k, e = KeyError k.
Proof.
  revert update. induction items as [|[key val] items IH]; intros update; simpl;
    [discriminate|].
  destruct (dict_get key key_values) as [v|]; [|intros [= <-]; eauto].
  destruct (dict_get key defs) as [[[k unit] f]|]; [|intros [= <-]; eauto].
  specialize (IH (if negb (String.eqb val (format2 v unit)) then true else update)).
  destruct (update_attrs key_values defs items _) as [[rest' u'] e']. exact IH.
Qed.

Lemma async_update_values_raises_key_error (self : SMAsensor) (key_values : dict Z)
  (e : exn) :
  snd (async_update_values self key_values) = Raise e -> exists k, e = KeyError k.
Proof.
  unfold async_update_values.
  pose proof (update_attrs_raises_key_error key_values (_sensor_defs self)
                (_attr self) false) as Hloop.
  destruct (update_attrs key_values (_sensor_defs self) (_attr self) false)
    as [[attr update] [e'|]]; simpl in *.
  - intros [= <-]. now apply Hloop.
  - destruct (dict_get (_name self) key_values) as [v|]; [|intros [= <-]; eauto].
    destruct (state_ne v (_state self)); discriminate.
Qed.

Lemma async_update_values_missing (self : SMAsensor) (key_values : dict Z) :
  dict_get (_name self) key_values = None \/
  (exists key, In key (dict_keys (_attr self)) /\
               (dict_get key key_values = None \/
                dict_get key (_sensor_defs self) = None)) ->
  exists k, snd (async_update_values self key_values) = Raise (KeyError k).
Proof.
  intros Hmissing.
  destruct (async_update_values self key_values) as [self' [changed|e]] eqn:Hcall.
  - exfalso.
    destruct (async_update_values_result _ _ _ _ Hcall)
      as [[[v [Hv _]] Hattr] [[Hname [_ [_ [Hdefs Hkeys]]]] _]].
    destruct Hmissing as [Hnone|[key [Hin Hnone]]]; [congruence|].
    rewrite <- Hkeys in Hin. unfold dict_keys in Hin. apply in_map_iff in Hin.
    destruct Hin as [[key' val] [Heq Hin]]. simpl in Heq. subst key'.
    rewrite Forall_forall in Hattr. specialize (Hattr _ Hin). simpl in Hattr.
    unfold attr_string in Hattr. rewrite Hdefs in Hattr.
    destruct (dict_get key key_values); [|discriminate].
    destruct (dict_get key (_sensor_defs self)); [|discriminate].
    destruct Hnone; discriminate.
  - simpl. destruct (async_update_values_raises_key_error self key_values e) as [k ->];
      [now rewrite Hcall | eauto].
Qed.

Lemma update_sensors_missing (res : dict Z) (sensors : list SMAsensor)
  (tasks : list string) (sensor : SMAsensor) :
  In sensor sensors ->
  (dict_get (_name sensor) res = None \/
   exists key, In key (dict_keys (_attr sensor)) /\
               (dict_get key res = None \/ dict_get key (_sensor_defs sensor) = None)) ->
  exists k, snd (update_sensors res sensors tasks) = Raise (KeyError k).
Proof.
  revert tasks. induction sensors as [|s rest IH]; intros tasks Hin Hmissing;
    [contradiction|]. simpl.
  destruct (async_update_values s res) as [s' [changed|e]] eqn:Hcall.
  - destruct Hin as [->|Hin].
    + destruct (async_update_values_missing sensor res Hmissing) as [k Hk].
      rewrite Hcall in Hk. discriminate.
    + destruct (IH (if changed then (tasks ++ [_name s])%list else tasks) Hin Hmissing)
        as [k Hk].
      destruct (update_sensors res rest _) as [rest' r]. simpl in *. eauto.
  - simpl. destruct (async_update_values_raises_key_error s res e) as [k ->];
      [now rewrite Hcall | eauto].
Qed.

(** X18.  When the mapping of a polling run lacks a value for the name
    of some sensor or for one of its attributes, or the table of the
    sensor lacks one of its attributes, the run raises [KeyError] and
    notifies nobody, also not the sensors it has already updated. *)
Theorem missing_lookup_raises_key_error (p : platform) (values : list (option Z))
  (res : dict Z) (sensor : SMAsensor) :
  backoff p <= 1 ->
  effective_values p values = Return res ->
  In sensor (hass_sensors p) ->
  (dict_get (_name sensor) res = None \/
   exists key, In key (dict_keys (_attr sensor)) /\
               (dict_get key res = None \/ dict_get key (_sensor_defs sensor) = None)) ->
  (exists k, raised (snd (async_sma p (Some values))) = Some (KeyError k)) /\
  notified (snd (async_sma p (Some values))) = [] /\
  backoff (fst (async_sma p (Some values))) = backoff p.
Proof.
  intros Hb Hres Hin Hmissing. unfold async_sma.
  destruct (Z.ltb_spec 1 (backoff p)) as [Hgt|_]; [lia|]. rewrite Hres.
  destruct (update_sensors_missing res (hass_sensors p) [] sensor Hin Hmissing) as [k Hk].
  destruct (update_sensors res (hass_sensors p) []) as [sensors r]. simpl in Hk.
  subst r. simpl. eauto.
Qed.

Lemma missing_lookup_raises_key_error_witness :
  (exists k, raised (snd (async_sma sample_platform (Some [Some 5]))) = Some (KeyError k)) /\
  notified (snd (async_sma sample_platform (Some [Some 5]))) = [] /\
  backoff (fst (async_sma sample_platform (Some [Some 5]))) = backoff sample_platform.
Proof.
  apply (missing_lookup_raises_key_error sample_platform [Some 5]
           [("current_power", 5)] sample_sensor).
  - simpl. lia.
  - reflexivity.
  - left. reflexivity.
  - left. reflexivity.
Defined.

(** ** The session parameters *)

(** X19.  A group that the schema accepts is always found in the table
    of library groups: with no group configured the user group is
    chosen, and the only groups accepted are the user and the installer
    group, each mapped to the library constant of that role; for any
    other group the schema raises [vol.Invalid], and the table lookup,
    if it were reached, [KeyError]. *)
Theorem validated_group_is_selected (lib : pysma_groups) (raw : option string) :
  (forall group, validate_group raw = Return group ->
     (group = GROUP_USER /\ select_group lib group = Return (pysma_GROUP_USER lib)) \/
     (group = GROUP_INSTALLER /\
      select_group lib group = Return (pysma_GROUP_INSTALLER lib))) /\
  (validate_group None = Return GROUP_USER) /\
  (forall group, raw = Some group -> group <> GROUP_USER -> group <> GROUP_INSTALLER ->
     (exists msg, validate_group raw = Raise (Invalid msg)) /\
     select_group lib group = Raise (KeyError group)).
Proof.
  split; [|split; [reflexivity|]].
  - intros group. unfold validate_group.
    set (g := match raw with Some g => g | None => hd "" GROUPS end).
    unfold GROUPS. cbn [py_in].
    destruct (String.eqb_spec g GROUP_USER) as [Hu|_].
    + intros [= <-]. left. rewrite Hu. split; reflexivity.
    + destruct (String.eqb_spec g GROUP_INSTALLER) as [Hi|_]; [|discriminate].
      intros [= <-]. right. rewrite Hi. split; reflexivity.
  - intros group -> Hu Hi. unfold validate_group, GROUPS. cbn [py_in].
    apply String.eqb_neq in Hu, Hi. rewrite Hu, Hi. split; [eauto|].
    unfold select_group, getitem. cbn.
    now rewrite Hu, Hi.
Qed.

Lemma validated_group_is_selected_witness :
  select_group {| pysma_GROUP_INSTALLER := "istl"; pysma_GROUP_USER := "usr" |}
    GROUP_INSTALLER = Return "istl".
Proof.
  destruct (proj1 (validated_group_is_selected
                     {| pysma_GROUP_INSTALLER := "istl"; pysma_GROUP_USER := "usr" |}
                     (Some "installer")) "installer" eq_refl) as [[H _]|[_ H]].
  - discriminate H.
  - exact H.
Defined.

(** X20.  The URL of the session starts with the scheme chosen by the
    SSL flag and ends with the host, and it determines both: different
    flags or hosts never give the same URL. *)
Theorem session_url_determines_host (ssl1 ssl2 : bool) (host1 host2 : string) :
  session_url ssl1 host1 = (if ssl1 then "https://" else "http://") ++ host1 /\
  (session_url ssl1 host1 = session_url ssl2 host2 <-> ssl1 = ssl2 /\ host1 = host2).
Proof.
  split; [now destruct ssl1|].
  split; [|now intros [-> ->]].
  destruct ssl1, ssl2; cbn; intros H; try discriminate H; now injection H as ->.
Qed.

(** ** The order of the query *)

Lemma dict_keys_set_order {V : Type} (k : string) (v : V) (d : dict V) :
  dict_keys (dict_set k v d)
  = if dict_mem k d then dict_keys d else (dict_keys d ++ [k])%list.
Proof.
  unfold dict_mem. induction d as [|[k0 v0] d IH]; simpl; [reflexivity|].
  destruct (String.eqb_spec k k0) as [->|Hne]; simpl; [reflexivity|].
  rewrite IH. now destruct (dict_get k d).
Qed.

Lemma fold_set_keys_order {V : Type} (l : list (string * V)) (d : dict V) :
  NoDup (map fst l) ->
  dict_keys (fold_left set_item l d)
  = (dict_keys d ++ filter (fun name => negb (dict_mem name d)) (map fst l))%list.
Proof.
  revert d. induction l as [|[k v] l IH]; intros d Hnd; simpl.
  - now rewrite app_nil_r.
  - inversion Hnd as [|? ? Hnotin Hnd']; subst.
    rewrite IH by exact Hnd'. unfold set_item at 1 2. cbn [fst snd].
    rewrite dict_keys_set_order.
    assert (Hsame : filter (fun name => negb (dict_mem name (dict_set k v d))) (map fst l)
                    = filter (fun name => negb (dict_mem name d)) (map fst l)).
    { apply filter_ext_in. intros n Hn. unfold dict_mem.
      rewrite dict_get_set_neq; [reflexivity|]. intros ->. contradiction. }
    rewrite Hsame. destruct (dict_mem k d); cbn [negb]; [reflexivity|].
    now rewrite <- app_assoc.
Qed.

Lemma dict_keys_filter {V : Type} (keep : string -> bool) (d : dict V) :
  dict_keys (dict_filter keep d) = filter keep (dict_keys d).
Proof.
  induction d as [|[k v] d IH]; simpl; [reflexivity|].
  destruct (keep k); simpl; now rewrite IH.
Qed.

Lemma builtin_mem (pysma : pysma_module) (name : string) :
  dict_mem name (builtin_defs pysma) = py_in name SENSOR_OPTIONS.
Proof.
  unfold dict_mem. rewrite builtin_defs_eq. cbn.
  repeat (destruct (String.eqb name _); [reflexivity|]). reflexivity.
Qed.

(** X21.  The names queried are, in this order, the built-in names in
    the order of [SENSOR_OPTIONS] and then the custom names that are not
    built-in names, in the order of the configuration, each kept only if
    a configured sensor refers to it; no name is queried twice, and one
    device key is queried per name. *)
Theorem query_order (pysma : pysma_module) (config : config) (p : platform) :
  NoDup (dict_keys (conf_custom config)) ->
  async_setup_platform pysma config = Return p ->
  names_to_query p
  = filter (fun name => py_in name (configured_names (conf_sensors config)))
      (SENSOR_OPTIONS ++
       filter (fun name => negb (py_in name SENSOR_OPTIONS))
              (dict_keys (conf_custom config))) /\
  NoDup (names_to_query p) /\
  List.length (keys_to_query p) = List.length (names_to_query p).
Proof.
  intros Hnd Hsetup.
  destruct (setup_spec _ _ _ Hsetup) as [Hdefs [Hnames [Hkeys _]]].
  split; [|split].
  - rewrite Hnames, Hdefs, dict_keys_filter, fold_add_custom.
    rewrite fold_set_keys_order by (rewrite map_map; exact Hnd).
    rewrite map_map. cbn [fst]. f_equal. f_equal.
    apply filter_ext. intros name. now rewrite builtin_mem.
  - rewrite Hnames, Hdefs. apply dict_filter_NoDup, all_defs_NoDup, dict_of_NoDup.
  - now apply query_keys_length in Hkeys.
Qed.

Lemma query_order_witness :
  names_to_query sample_platform = ["current_power"; "total_yield"].
Proof.
  exact (proj1 (query_order sample_pysma sample_config sample_platform
                  (NoDup_nil string) eq_refl)).
Defined.

(** ** The message of the configuration check *)

Lemma check_attrs_first (valid : list string) (sensor : string)
  (before : list string) (attr : string) (after : list string) :
  (forall a, In a before -> In a valid) -> ~ In attr valid ->
  check_attrs valid sensor (before ++ attr :: after) = Raise (Invalid (msg_attr attr sensor)).
Proof.
  intros Hbefore Hnot. induction before as [|a before IH]; simpl.
  - apply py_in_false in Hnot. now rewrite Hnot.
  - rewrite (proj2 (py_in_In a valid)) by (apply Hbefore; now left).
    apply IH. intros b Hb. apply Hbefore. now right.
Qed.

(** X22.  [_check_sensor_schema] reports the first name that does not
    resolve, going through the sensors in order and through the
    attributes of a sensor after its name: for a sensor name the message
    is ["<name> does not exist"], for an attribute
    ["<attribute> does not exist [<sensor>]"]. *)
Theorem check_reports_first_unresolved (conf : config)
  (before : list (string * list string)) (sensor : string) (attrs : list string)
  (after : list (string * list string)) :
  conf_sensors conf = (before ++ (sensor, attrs) :: after)%list ->
  (forall name, In name (configured_names before) ->
                resolves (dict_keys (conf_custom conf)) name) ->
  (~ resolves (dict_keys (conf_custom conf)) sensor ->
   _check_sensor_schema conf = Raise (Invalid (sensor ++ " does not exist"))) /\
  (forall attrs1 attr attrs2,
     resolves (dict_keys (conf_custom conf)) sensor ->
     attrs = (attrs1 ++ attr :: attrs2)%list ->
     (forall a, In a attrs1 -> resolves (dict_keys (conf_custom conf)) a) ->
     ~ resolves (dict_keys (conf_custom conf)) attr ->
     _check_sensor_schema conf
     = Raise (Invalid (attr ++ " does not exist [" ++ sensor ++ "]"))).
Proof.
  intros Hitems Hbefore. unfold _check_sensor_schema. rewrite Hitems.
  set (valid := (dict_keys (conf_custom conf) ++ SENSOR_OPTIONS)%list).
  assert (Hcheck : forall rest,
             check_sensors valid (before ++ rest) = check_sensors valid rest).
  { intros rest. clear Hitems. induction before as [|[s a] before IH]; [reflexivity|].
    simpl.
    rewrite (proj2 (py_in_In s valid))
      by (apply valid_resolves, Hbefore; simpl; now left).
    simpl. rewrite (proj2 (check_attrs_ok valid s a)).
    - simpl. apply IH. intros name Hname. apply Hbefore. simpl. right.
      apply in_or_app. now right.
    - intros b Hb. apply valid_resolves, Hbefore. simpl. right.
      apply in_or_app. now left. }
  rewrite Hcheck. simpl. split.
  - intros Hnot. rewrite <- valid_resolves in Hnot. fold valid in Hnot.
    apply py_in_false in Hnot. now rewrite Hnot.
  - intros attrs1 attr attrs2 Hsensor -> Hattrs1 Hnot.
    rewrite (proj2 (py_in_In sensor valid)) by now apply valid_resolves.
    simpl. rewrite check_attrs_first; [reflexivity| |].
    + intros a Ha. now apply valid_resolves, Hattrs1.
    + unfold valid. now rewrite valid_resolves.
Qed.

Lemma check_reports_first_unresolved_witness :
  _check_sensor_schema
    {| conf_sensors := [("current_power", []);
                        ("total_yield", ["current_power"; "voltage"; "amps"])];
       conf_custom := [] |}
  = Raise (Invalid "voltage does not exist [total_yield]").
Proof.
  refine (proj2 (check_reports_first_unresolved
                   {| conf_sensors := [("current_power", []);
                                       ("total_yield", ["current_power"; "voltage"; "amps"])];
                      conf_custom := [] |}
                   [("current_power", [])] "total_yield"
                   ["current_power"; "voltage"; "amps"] [] eq_refl _)
                ["current_power"] "voltage" ["amps"] _ eq_refl _ _).
  - intros name [<-|[]]. left. simpl. tauto.
  - left. simpl. tauto.
  - intros a [<-|[]]. left. simpl. tauto.
  - intros [H|[]]. simpl in H. intuition discriminate.
Defined.

(** ** Values during a backoff *)

(** X23.  A failed read clears nothing: after a run whose read returned
    no result object, and through the two skipped runs that follow,
    every sensor keeps the state and the attribute strings it had, and
    nobody is notified, whatever the device would have replied. *)
Theorem values_kept_during_backoff (p : platform) (r1 r2 : option (list (option Z))) :
  polled (snd (async_sma p None)) = true ->
  hass_sensors (fst (run p [None; r1; r2])) = hass_sensors p /\
  map notified (snd (run p [None; r1; r2])) = [[]; []; []] /\
  map raised (snd (run p [None; r1; r2])) = [None; None; None].
Proof.
  intros Hpolled. apply polled_iff in Hpolled.
  assert (Hfail : async_sma p None =
                    (set_backoff p 3, {| polled := true; notified := []; raised := None |})).
  { unfold async_sma. destruct (Z.ltb_spec 1 (backoff p)); [lia | reflexivity]. }
  rewrite run_cons, Hfail. cbn [fst snd].
  rewrite run_cons, async_sma_skip by (simpl; lia). cbn [fst snd].
  rewrite run_cons, async_sma_skip by (simpl; lia). cbn [fst snd].
  repeat split.
Qed.

Lemma values_kept_during_backoff_witness :
  let p := fst (async_sma sample_platform (Some [Some 5; Some 123456])) in
  hass_sensors (fst (run p [None; Some [Some 9; Some 9]; Some [Some 9; Some 9]]))
  = hass_sensors p.
Proof.
  intros p.
  exact (proj1 (values_kept_during_backoff p (Some [Some 9; Some 9])
                  (Some [Some 9; Some 9]) eq_refl)).
Defined.
